(** * SVG viewer: sanitizer, loader, renderer, pan/zoom engine, image inliner

    A shallow embedding of [src/js/index.js].

    - JavaScript numbers are [Number]: NaN, the two infinities, or a finite
      value held as an exact rational (rounding is not modelled; zero has
      no sign, and every zero divisor of this program is a distance, so a
      positive zero).  Where a theorem gives the value of a scale it gives
      the expression the code evaluates, operation by operation; nothing
      is stated that holds only because a product undoes a quotient
      exactly.
    - The DOM is a tree of [Node]s; every element carries a [nodeId], the
      identity a JavaScript reference to it denotes, and its namespace.  A
      document is the list of children of its document node.  In the
      parsed document, an XML document, attribute calls compare qualified
      names as they are written; on the clone that [importNode] makes for
      the page, an HTML document, they lower-case the name when the
      element is in the HTML namespace ([nameInHTMLDocument]).
    - The mutable [state] object and the page widgets the script writes to
      form one record, [World], threaded through every handler.  A handler
      with awaits runs in one piece: no other event is taken in between.
    - What the browser provides (string trimming and case mapping, number
      parsing and printing, Math.hypot, the XML parser and serializer, the
      network) is the interface [Host]; the theorems of the second part
      hold for every host, and the concrete runs use the small host
      [Scenario.host].
*)

From Stdlib Require Import Bool Arith List String Ascii ZArith QArith Qminmax Lia Lqa.
From Stdlib Require Import DecimalString.
Import ListNotations.

Set Implicit Arguments.

Local Open Scope string_scope.
Local Open Scope list_scope.

(* ================================================================== *)
(** ** JavaScript values *)

Module JS.

(** A JavaScript number. *)
Inductive Number : Type :=
| NaN
| Inf (negative : bool)
| Fin (q : Q).

Definition isNaN (n : Number) : bool :=
  match n with NaN => true | _ => false end.

Definition Qeqb0 (q : Q) : bool := Qeq_bool q 0.
Definition Qneg (q : Q) : bool := negb (Qle_bool 0 q).

Definition neg (a : Number) : Number :=
  match a with
  | NaN => NaN
  | Inf s => Inf (negb s)
  | Fin x => Fin (- x)
  end.

Definition add (a b : Number) : Number :=
  match a, b with
  | NaN, _ | _, NaN => NaN
  | Inf s, Inf s' => if Bool.eqb s s' then Inf s else NaN
  | Inf s, Fin _ => Inf s
  | Fin _, Inf s => Inf s
  | Fin x, Fin y => Fin (x + y)
  end.

Definition sub (a b : Number) : Number := add a (neg b).

Definition mul (a b : Number) : Number :=
  match a, b with
  | NaN, _ | _, NaN => NaN
  | Inf s, Inf s' => Inf (xorb s s')
  | Inf s, Fin y => if Qeqb0 y then NaN else Inf (xorb s (Qneg y))
  | Fin x, Inf s => if Qeqb0 x then NaN else Inf (xorb s (Qneg x))
  | Fin x, Fin y => Fin (x * y)
  end.

Definition div (a b : Number) : Number :=
  match a, b with
  | NaN, _ | _, NaN => NaN
  | Inf _, Inf _ => NaN
  | Inf s, Fin y => Inf (xorb s (Qneg y))
  | Fin _, Inf _ => Fin 0
  | Fin x, Fin y =>
      if Qeqb0 y then (if Qeqb0 x then NaN else Inf (Qneg x))
      else Fin (x / y)
  end.

(** [a <= b] on numbers that are not NaN. *)
Definition leb (a b : Number) : bool :=
  match a, b with
  | NaN, _ | _, NaN => false
  | Inf true, _ => true
  | _, Inf false => true
  | Inf false, _ => false
  | _, Inf true => false
  | Fin x, Fin y => Qle_bool x y
  end.

(** The comparison [a > b]: false as soon as one side is NaN. *)
Definition gt (a b : Number) : bool :=
  match a, b with
  | NaN, _ | _, NaN => false
  | _, _ => negb (leb a b)
  end.

(** Math.max and Math.min of two arguments: NaN when either is. *)
Definition max (a b : Number) : Number :=
  match a, b with
  | NaN, _ | _, NaN => NaN
  | _, _ => if leb a b then b else a
  end.

Definition min (a b : Number) : Number :=
  match a, b with
  | NaN, _ | _, NaN => NaN
  | _, _ => if leb a b then a else b
  end.

(** Equality of numbers as values: finite ones as rationals. *)
Definition same (a b : Number) : Prop :=
  match a, b with
  | NaN, NaN => True
  | Inf s, Inf s' => s = s'
  | Fin x, Fin y => x == y
  | _, _ => False
  end.

(** [lo <= n <= hi] for a finite [n]. *)
Definition within (lo hi : Q) (n : Number) : Prop :=
  match n with
  | Fin q => lo <= q /\ q <= hi
  | _ => False
  end.

(** A string or null, as [getAttribute] answers; truthiness as in a
    condition or on the left of [||]. *)
Definition truthy (v : option string) : bool :=
  match v with
  | Some s => negb (String.eqb s "")
  | None => false
  end.

Definition orElse (a b : option string) : option string :=
  if truthy a then a else b.

(** String.prototype.startsWith *)
Fixpoint startsWith (p s : string) : bool :=
  match p with
  | EmptyString => true
  | String a p' =>
      match s with
      | EmptyString => false
      | String b s' => Ascii.eqb a b && startsWith p' s'
      end
  end.

Definition includes (p s : string) : bool :=
  match String.index 0 p s with Some _ => true | None => false end.

(** The regular expression [/^on/i]: without the unicode flag only the
    ASCII letters fold onto [o] and [n]. *)
Definition is_o (c : ascii) : bool := Ascii.eqb c "o" || Ascii.eqb c "O".
Definition is_n (c : ascii) : bool := Ascii.eqb c "n" || Ascii.eqb c "N".

Definition test_on_i (s : string) : bool :=
  match s with
  | String c1 (String c2 _) => is_o c1 && is_n c2
  | _ => false
  end.

(** Lower case of the ASCII letters, every other character kept. *)
Definition asciiLower (c : ascii) : ascii :=
  let n := nat_of_ascii c in
  if Nat.leb 65 n && Nat.leb n 90 then ascii_of_nat (n + 32) else c.

Fixpoint asciiLowerCase (s : string) : string :=
  match s with
  | String c r => String (asciiLower c) (asciiLowerCase r)
  | EmptyString => EmptyString
  end.

(** Iteration over a snapshot, threading what the callback mutates. *)
Definition forEach {A S : Type} (l : list A) (f : A -> S -> S) (s : S) : S :=
  fold_left (fun acc x => f x acc) l s.

End JS.

Import JS.

(* ================================================================== *)
(** ** The DOM *)

Module DOM.

Definition NodeId := nat.

Record Attr : Type := mkAttr {
  attrNamespaceURI : option string;
  attrPrefix : option string;
  attrLocalName : string;
  value : string
}.

(** The qualified name, [attr.name]. *)
Definition name (a : Attr) : string :=
  match attrPrefix a with
  | Some p => p ++ ":" ++ attrLocalName a
  | None => attrLocalName a
  end.

Record ElementData : Type := mkElement {
  nodeId : NodeId;
  namespaceURI : option string;
  prefix : option string;
  localName : string;
  attrs : list Attr
}.

Definition withAttrs (e : ElementData) (a : list Attr) : ElementData :=
  mkElement (nodeId e) (namespaceURI e) (prefix e) (localName e) a.

Inductive DataKind : Type := TextNode | CDataSection | Comment | ProcessingInstruction | DocumentType.

#[local] Unset Elimination Schemes.
Inductive Node : Type :=
| Element (e : ElementData) (childNodes : list Node)
| CharacterData (kind : DataKind) (data : string).
#[local] Set Elimination Schemes.

(** Induction over a tree, the children of an element all at once. *)
Fixpoint Node_induction (P : Node -> Prop)
  (HE : forall e cs, Forall P cs -> P (Element e cs))
  (HC : forall k d, P (CharacterData k d)) (n : Node) : P n :=
  match n with
  | Element e cs =>
      HE e cs ((fix all (l : list Node) : Forall P l :=
                  match l with
                  | [] => Forall_nil P
                  | c :: l' => Forall_cons c (Node_induction HE HC c) (all l')
                  end) cs)
  | CharacterData k d => HC k d
  end.

(** The children of the document node. *)
Definition Document := list Node.

(** *** Attribute lists *)

Definition attrs_get (qname : string) (l : list Attr) : option string :=
  option_map value (find (fun a => String.eqb (name a) qname) l).

Definition attrs_has (qname : string) (l : list Attr) : bool :=
  existsb (fun a => String.eqb (name a) qname) l.

Definition option_eqb (a b : option string) : bool :=
  match a, b with
  | Some x, Some y => String.eqb x y
  | None, None => true
  | _, _ => false
  end.

Definition htmlNS : option string := Some "http://www.w3.org/1999/xhtml".

(** The qualified name that hasAttribute, getAttribute and setAttribute
    work with on a node owned by an HTML document: in ASCII lower case
    when the element is in the HTML namespace, as written otherwise. *)
Definition nameInHTMLDocument (e : ElementData) (qname : string) : string :=
  if option_eqb (namespaceURI e) htmlNS then asciiLowerCase qname else qname.

Definition attrs_getNS (ns : option string) (lname : string) (l : list Attr) : option string :=
  option_map value
    (find (fun a => option_eqb (attrNamespaceURI a) ns && String.eqb (attrLocalName a) lname) l).

(** [removeAttribute]: the first attribute of that qualified name goes. *)
Fixpoint attrs_remove (qname : string) (l : list Attr) : list Attr :=
  match l with
  | [] => []
  | a :: rest => if String.eqb (name a) qname then rest else a :: attrs_remove qname rest
  end.

(** [setAttribute]: the first attribute of that qualified name gets the
    value; when there is none, a new attribute without namespace and prefix
    is appended. *)
Fixpoint attrs_set (qname v : string) (l : list Attr) : list Attr :=
  match l with
  | [] => [mkAttr None None qname v]
  | a :: rest =>
      if String.eqb (name a) qname
      then mkAttr (attrNamespaceURI a) (attrPrefix a) (attrLocalName a) v :: rest
      else a :: attrs_set qname v rest
  end.

(** *** Trees *)

(** The elements of a subtree, in document order. *)
Fixpoint elementsOf (n : Node) : list ElementData :=
  match n with
  | Element e cs => e :: flat_map elementsOf cs
  | CharacterData _ _ => []
  end.

Definition elements (doc : Document) : list ElementData := flat_map elementsOf doc.

(** Detach every element that satisfies [p] (with all it contains). *)
Fixpoint pruneNode (p : ElementData -> bool) (n : Node) : list Node :=
  match n with
  | Element e cs => if p e then [] else [Element e (flat_map (pruneNode p) cs)]
  | CharacterData _ _ => [n]
  end.

Definition prune (p : ElementData -> bool) (doc : Document) : Document :=
  flat_map (pruneNode p) doc.

(** Rewrite the attribute list of every element. *)
Fixpoint updateNode (f : ElementData -> list Attr) (n : Node) : Node :=
  match n with
  | Element e cs => Element (withAttrs e (f e)) (map (updateNode f) cs)
  | CharacterData _ _ => n
  end.

Definition update (f : ElementData -> list Attr) (doc : Document) : Document :=
  map (updateNode f) doc.

Definition hasId (n : NodeId) (e : ElementData) : bool := Nat.eqb (nodeId e) n.

(** Apply [g] to the attribute list of the element [el]. *)
Definition onElement (el : NodeId) (g : list Attr -> list Attr) (doc : Document) : Document :=
  update (fun e => if hasId el e then g (attrs e) else attrs e) doc.

(** *** The DOM calls the script makes *)

Inductive Selector : Type :=
| TypeSelector (lname : string)
| UniversalSelector.

(** A type selector compares local names, whatever the prefix. *)
Definition matches (sel : Selector) (e : ElementData) : bool :=
  match sel with
  | TypeSelector n => String.eqb (localName e) n
  | UniversalSelector => true
  end.

Definition querySelectorAll (sel : Selector) (doc : Document) : list NodeId :=
  map nodeId (filter (matches sel) (elements doc)).

Definition querySelector (sel : Selector) (doc : Document) : option NodeId :=
  hd_error (querySelectorAll sel doc).

(** [n.remove()] *)
Definition remove (n : NodeId) (doc : Document) : Document := prune (hasId n) doc.

(** [el.attributes], empty for a node that is no longer in the document. *)
Definition attributes (el : NodeId) (doc : Document) : list Attr :=
  match find (hasId el) (elements doc) with
  | Some e => attrs e
  | None => []
  end.

Definition getAttribute (el : NodeId) (qname : string) (doc : Document) : option string :=
  attrs_get qname (attributes el doc).

Definition getAttributeNS (el : NodeId) (ns : option string) (lname : string) (doc : Document)
  : option string :=
  attrs_getNS ns lname (attributes el doc).

Definition removeAttribute (el : NodeId) (qname : string) (doc : Document) : Document :=
  onElement el (attrs_remove qname) doc.

Definition setAttribute (el : NodeId) (qname v : string) (doc : Document) : Document :=
  onElement el (attrs_set qname v) doc.

(** [doc.documentElement]: the element child of the document node. *)
Fixpoint documentElement (doc : Document) : option Node :=
  match doc with
  | [] => None
  | Element e cs :: _ => Some (Element e cs)
  | CharacterData _ _ :: rest => documentElement rest
  end.

(** What a parser or a clone builds: no two elements share their identity,
    and no element has two attributes of one qualified name. *)
Definition wellFormed (doc : Document) : Prop :=
  NoDup (map nodeId (elements doc)) /\
  Forall (fun e => NoDup (map name (attrs e))) (elements doc).

End DOM.

Import DOM.

(* ================================================================== *)
(** ** What the browser provides *)

Inductive FetchResult : Type :=
| NetworkError (message : string)
| Response (ok : bool) (status : nat) (body : string).

Class Host : Type := {
  (** String.prototype.trim and String.prototype.toLowerCase *)
  trim : string -> string;
  toLowerCase : string -> string;
  (** parseFloat, and the text of a number in a template literal *)
  parseFloat : string -> Number;
  numberToString : Number -> string;
  (** Math.hypot of two finite numbers *)
  hypot : Q -> Q -> Q;
  (** DOMParser.parseFromString (image/svg+xml) and
      XMLSerializer.serializeToString *)
  parseFromString : string -> Document;
  serializeToString : Node -> string;
  (** The [n]-th fetch of the run, of the given address (mode cors) *)
  fetch : nat -> string -> FetchResult;
  (** FileReader.readAsDataURL of a fetched body; None when reading fails *)
  readAsDataURL : string -> option string;
  (** The message of the TypeError that importNode(null) raises *)
  importNodeNullMessage : string
}.

(* ================================================================== *)
(** ** The state object and the page *)

Record Point : Type := mkPoint { x : Q; y : Q }.

Record PinchStart : Type := mkPinchStart {
  dist : Q;
  pinchScale : Number;
  center : Point
}.

(** A file handed to the user by the download link. *)
Record Download : Type := mkDownload {
  fileName : string;
  mimeType : string;
  content : string
}.

Record World : Type := mkWorld {
  (* let state = { ... }; its field viewBox is never read or written *)
  scale : Number;
  tx : Number;
  ty : Number;
  minScale : Number;
  maxScale : Number;
  isPanning : bool;
  lastX : Q;
  lastY : Q;
  pointers : list (Z * Point);
  svgElement : option Node;
  _pinchStart : option PinchStart;
  (* the widgets *)
  svgContainer : list Node;
  svgContainerDisplay : string;
  transform : string;
  placeholderDisplay : string;
  statusText : string;
  sourceArea : string;
  fileInput : string;
  urlInput : string;
  downloads : list Download;
  console : list string
}.

Definition initialWorld : World :=
  mkWorld (Fin 1) (Fin 0) (Fin 0) (Fin (1 # 10)) (Fin 20) false 0 0 [] None None
          [] "" "" "" "状态:就绪。拖入文件、粘贴或输入 URL 即可。" "" "" "" [] [].

Definition set_scale (v : Number) (w : World) : World :=
  mkWorld v (tx w) (ty w) (minScale w) (maxScale w) (isPanning w) (lastX w) (lastY w)
          (pointers w) (svgElement w) (_pinchStart w) (svgContainer w) (svgContainerDisplay w)
          (transform w) (placeholderDisplay w) (statusText w) (sourceArea w) (fileInput w)
          (urlInput w) (downloads w) (console w).

Definition set_tx (v : Number) (w : World) : World :=
  mkWorld (scale w) v (ty w) (minScale w) (maxScale w) (isPanning w) (lastX w) (lastY w)
          (pointers w) (svgElement w) (_pinchStart w) (svgContainer w) (svgContainerDisplay w)
          (transform w) (placeholderDisplay w) (statusText w) (sourceArea w) (fileInput w)
          (urlInput w) (downloads w) (console w).

Definition set_ty (v : Number) (w : World) : World :=
  mkWorld (scale w) (tx w) v (minScale w) (maxScale w) (isPanning w) (lastX w) (lastY w)
          (pointers w) (svgElement w) (_pinchStart w) (svgContainer w) (svgContainerDisplay w)
          (transform w) (placeholderDisplay w) (statusText w) (sourceArea w) (fileInput w)
          (urlInput w) (downloads w) (console w).

Definition set_isPanning (v : bool) (w : World) : World :=
  mkWorld (scale w) (tx w) (ty w) (minScale w) (maxScale w) v (lastX w) (lastY w)
          (pointers w) (svgElement w) (_pinchStart w) (svgContainer w) (svgContainerDisplay w)
          (transform w) (placeholderDisplay w) (statusText w) (sourceArea w) (fileInput w)
          (urlInput w) (downloads w) (console w).

Definition set_last (vx vy : Q) (w : World) : World :=
  mkWorld (scale w) (tx w) (ty w) (minScale w) (maxScale w) (isPanning w) vx vy
          (pointers w) (svgElement w) (_pinchStart w) (svgContainer w) (svgContainerDisplay w)
          (transform w) (placeholderDisplay w) (statusText w) (sourceArea w) (fileInput w)
          (urlInput w) (downloads w) (console w).

Definition set_pointers (v : list (Z * Point)) (w : World) : World :=
  mkWorld (scale w) (tx w) (ty w) (minScale w) (maxScale w) (isPanning w) (lastX w) (lastY w)
          v (svgElement w) (_pinchStart w) (svgContainer w) (svgContainerDisplay w)
          (transform w) (placeholderDisplay w) (statusText w) (sourceArea w) (fileInput w)
          (urlInput w) (downloads w) (console w).

Definition set_svgElement (v : option Node) (w : World) : World :=
  mkWorld (scale w) (tx w) (ty w) (minScale w) (maxScale w) (isPanning w) (lastX w) (lastY w)
          (pointers w) v (_pinchStart w) (svgContainer w) (svgContainerDisplay w)
          (transform w) (placeholderDisplay w) (statusText w) (sourceArea w) (fileInput w)
          (urlInput w) (downloads w) (console w).

Definition set_pinchStart (v : option PinchStart) (w : World) : World :=
  mkWorld (scale w) (tx w) (ty w) (minScale w) (maxScale w) (isPanning w) (lastX w) (lastY w)
          (pointers w) (svgElement w) v (svgContainer w) (svgContainerDisplay w)
          (transform w) (placeholderDisplay w) (statusText w) (sourceArea w) (fileInput w)
          (urlInput w) (downloads w) (console w).

Definition set_svgContainer (v : list Node) (w : World) : World :=
  mkWorld (scale w) (tx w) (ty w) (minScale w) (maxScale w) (isPanning w) (lastX w) (lastY w)
          (pointers w) (svgElement w) (_pinchStart w) v (svgContainerDisplay w)
          (transform w) (placeholderDisplay w) (statusText w) (sourceArea w) (fileInput w)
          (urlInput w) (downloads w) (console w).

Definition set_svgContainerDisplay (v : string) (w : World) : World :=
  mkWorld (scale w) (tx w) (ty w) (minScale w) (maxScale w) (isPanning w) (lastX w) (lastY w)
          (pointers w) (svgElement w) (_pinchStart w) (svgContainer w) v
          (transform w) (placeholderDisplay w) (statusText w) (sourceArea w) (fileInput w)
          (urlInput w) (downloads w) (console w).

Definition set_transform (v : string) (w : World) : World :=
  mkWorld (scale w) (tx w) (ty w) (minScale w) (maxScale w) (isPanning w) (lastX w) (lastY w)
          (pointers w) (svgElement w) (_pinchStart w) (svgContainer w) (svgContainerDisplay w)
          v (placeholderDisplay w) (statusText w) (sourceArea w) (fileInput w)
          (urlInput w) (downloads w) (console w).

Definition set_placeholderDisplay (v : string) (w : World) : World :=
  mkWorld (scale w) (tx w) (ty w) (minScale w) (maxScale w) (isPanning w) (lastX w) (lastY w)
          (pointers w) (svgElement w) (_pinchStart w) (svgContainer w) (svgContainerDisplay w)
          (transform w) v (statusText w) (sourceArea w) (fileInput w)
          (urlInput w) (downloads w) (console w).

Definition set_statusText (v : string) (w : World) : World :=
  mkWorld (scale w) (tx w) (ty w) (minScale w) (maxScale w) (isPanning w) (lastX w) (lastY w)
          (pointers w) (svgElement w) (_pinchStart w) (svgContainer w) (svgContainerDisplay w)
          (transform w) (placeholderDisplay w) v (sourceArea w) (fileInput w)
          (urlInput w) (downloads w) (console w).

Definition set_sourceArea (v : string) (w : World) : World :=
  mkWorld (scale w) (tx w) (ty w) (minScale w) (maxScale w) (isPanning w) (lastX w) (lastY w)
          (pointers w) (svgElement w) (_pinchStart w) (svgContainer w) (svgContainerDisplay w)
          (transform w) (placeholderDisplay w) (statusText w) v (fileInput w)
          (urlInput w) (downloads w) (console w).

Definition set_fileInput (v : string) (w : World) : World :=
  mkWorld (scale w) (tx w) (ty w) (minScale w) (maxScale w) (isPanning w) (lastX w) (lastY w)
          (pointers w) (svgElement w) (_pinchStart w) (svgContainer w) (svgContainerDisplay w)
          (transform w) (placeholderDisplay w) (statusText w) (sourceArea w) v
          (urlInput w) (downloads w) (console w).

Definition set_urlInput (v : string) (w : World) : World :=
  mkWorld (scale w) (tx w) (ty w) (minScale w) (maxScale w) (isPanning w) (lastX w) (lastY w)
          (pointers w) (svgElement w) (_pinchStart w) (svgContainer w) (svgContainerDisplay w)
          (transform w) (placeholderDisplay w) (statusText w) (sourceArea w) (fileInput w)
          v (downloads w) (console w).

Definition set_downloads (v : list Download) (w : World) : World :=
  mkWorld (scale w) (tx w) (ty w) (minScale w) (maxScale w) (isPanning w) (lastX w) (lastY w)
          (pointers w) (svgElement w) (_pinchStart w) (svgContainer w) (svgContainerDisplay w)
          (transform w) (placeholderDisplay w) (statusText w) (sourceArea w) (fileInput w)
          (urlInput w) v (console w).

Definition set_console (v : list string) (w : World) : World :=
  mkWorld (scale w) (tx w) (ty w) (minScale w) (maxScale w) (isPanning w) (lastX w) (lastY w)
          (pointers w) (svgElement w) (_pinchStart w) (svgContainer w) (svgContainerDisplay w)
          (transform w) (placeholderDisplay w) (statusText w) (sourceArea w) (fileInput w)
          (urlInput w) (downloads w) v.

(* ================================================================== *)
(** ** Statements that may throw, over the world *)

Inductive Exception : Type :=
| Error (message : string)
| TypeError (message : string).

Definition messageOf (e : Exception) : string :=
  match e with Error m => m | TypeError m => m end.

Inductive Outcome (A : Type) : Type :=
| Return (a : A)
| Throw (e : Exception).

Arguments Return {A} a.
Arguments Throw {A} e.

Definition Script (A : Type) : Type := World -> Outcome A * World.

Definition ret {A : Type} (a : A) : Script A := fun w => (Return a, w).

Definition throw {A : Type} (e : Exception) : Script A := fun w => (Throw e, w).

Definition bind {A B : Type} (m : Script A) (k : A -> Script B) : Script B :=
  fun w =>
    match m w with
    | (Return a, w') => k a w'
    | (Throw e, w') => (Throw e, w')
    end.

(** [try { m } catch (err) { h err }] *)
Definition tryCatch {A : Type} (m : Script A) (h : Exception -> Script A) : Script A :=
  fun w =>
    match m w with
    | (Return a, w') => (Return a, w')
    | (Throw e, w') => h e w'
    end.

Definition modify (f : World -> World) : Script unit := fun w => (Return tt, f w).

Definition liftOutcome {A : Type} (o : Outcome A) : Script A := fun w => (o, w).

(** The world a handler leaves behind. *)
Definition run {A : Type} (m : Script A) (w : World) : World := snd (m w).

Declare Scope script_scope.
Delimit Scope script_scope with script.
Notation "x <- m ;; k" := (bind m (fun x => k))
  (at level 61, m at next level, right associativity) : script_scope.
Notation "m ;; k" := (bind m (fun _ => k))
  (at level 61, right associativity) : script_scope.

(* ================================================================== *)
(** ** The script *)

Section Viewer.

Context {host : Host}.

Local Open Scope script_scope.

Definition setStatus (t : string) (w : World) : World :=
  set_statusText ("状态:" ++ t) w.

(** *** Sanitizer *)

(** The test on an attribute value: non-empty, and after trim and
    toLowerCase it starts with [javascript:]. *)
Definition javascriptValue (v : string) : bool :=
  negb (String.eqb v "") && startsWith "javascript:" (toLowerCase (trim v)).

Definition sanitizeAttribute (el : NodeId) (attr : Attr) (doc : Document) : Document :=
  let doc := if test_on_i (name attr) then removeAttribute el (name attr) doc else doc in
  if javascriptValue (value attr) then removeAttribute el (name attr) doc else doc.

Definition sanitizeElement (el : NodeId) (doc : Document) : Document :=
  forEach (attributes el doc) (sanitizeAttribute el) doc.

Definition sanitizeSVGDocument (doc : Document) : Document :=
  let scripts := querySelectorAll (TypeSelector "script") doc in
  let doc := forEach scripts remove doc in
  let foreign := querySelectorAll (TypeSelector "foreignObject") doc in
  let doc := forEach foreign remove doc in
  let all := querySelectorAll UniversalSelector doc in
  forEach all sanitizeElement doc.

(** *** Parser *)

Definition parseSVGText (text : string) : Outcome Document :=
  let doc := parseFromString text in
  match querySelector (TypeSelector "parsererror") doc with
  | Some _ => Throw (Error "解析失败:不是合法的 SVG")
  | None => Return doc
  end.

(** *** Transform *)

Definition transformText (w : World) : string :=
  "translate(" ++ numberToString (tx w) ++ "px, " ++ numberToString (ty w)
    ++ "px) scale(" ++ numberToString (scale w) ++ ")".

Definition applyTransform (w : World) : World :=
  set_transform (transformText w) w.

Definition setScale (s : Number) (w : World) : World :=
  let s := JS.max (minScale w) (JS.min (maxScale w) s) in
  applyTransform (set_scale s w).

Definition adjustFit (w : World) : World :=
  match svgElement w with
  | None => w
  | Some _ => applyTransform (set_scale (Fin 1) (set_ty (Fin 0) (set_tx (Fin 0) w)))
  end.

(** *** Renderer *)

Definition importNode (n : option Node) : Script Node :=
  match n with
  | Some node => ret node
  | None => throw (TypeError importNodeNullMessage)
  end.

Definition attributesOfNode (n : Node) : list Attr :=
  match n with
  | Element e _ => attrs e
  | CharacterData _ _ => []
  end.

(** The attribute calls on the imported clone.  The clone is a node of the
    page, an HTML document, so the names go through
    [nameInHTMLDocument]. *)
Definition pageName (n : Node) (qname : string) : string :=
  match n with
  | Element e _ => nameInHTMLDocument e qname
  | CharacterData _ _ => qname
  end.

Definition hasAttributeOfNode (qname : string) (n : Node) : bool :=
  attrs_has (pageName n qname) (attributesOfNode n).

Definition getAttributeOfNode (qname : string) (n : Node) : option string :=
  attrs_get (pageName n qname) (attributesOfNode n).

Definition setAttributeOfNode (qname v : string) (n : Node) : Node :=
  match n with
  | Element e cs =>
      Element (withAttrs e (attrs_set (nameInHTMLDocument e qname) v (attrs e))) cs
  | CharacterData _ _ => n
  end.

(** The viewBox step of the renderer, on the imported clone. *)
Definition ensureViewBox (imported : Node) : Node :=
  if negb (hasAttributeOfNode "viewBox" imported) then
    let w := getAttributeOfNode "width" imported in
    let h := getAttributeOfNode "height" imported in
    match w, h with
    | Some ws, Some hs =>
        if truthy w && truthy h then
          let wi := parseFloat ws in
          let hi := parseFloat hs in
          if negb (isNaN wi) && negb (isNaN hi) then
            setAttributeOfNode "viewBox"
              ("0 0 " ++ numberToString wi ++ " " ++ numberToString hi) imported
          else imported
        else imported
    | _, _ => imported
    end
  else imported.

Definition renderSVGDocument (doc : Document) : Script unit :=
  let svg := documentElement doc in
  modify (fun w => set_svgElement svg (set_ty (Fin 0) (set_tx (Fin 0) (set_scale (Fin 1) w)))) ;;
  modify (fun w => set_svgContainerDisplay "inline-block" (set_svgContainer [] w)) ;;
  imported <- importNode svg ;;
  let imported := ensureViewBox imported in
  modify (fun w => set_svgContainer (svgContainer w ++ [imported]) w) ;;
  modify applyTransform ;;
  modify adjustFit ;;
  modify (set_placeholderDisplay "none") ;;
  modify (setStatus "已加载") ;;
  modify (set_sourceArea
            (match svg with Some n => serializeToString n | None => "" end)).

(** *** Loading *)

(** parse, sanitize, render: the body of every try block that loads. *)
Definition loadText (txt : string) : Script unit :=
  doc <- liftOutcome (parseSVGText txt) ;;
  let doc := sanitizeSVGDocument doc in
  renderSVGDocument doc.

(** fileInput change and the drop of a file, [txt] being the file text. *)
Definition onFileText (txt : string) : Script unit :=
  tryCatch (modify (setStatus "读取文件...") ;; loadText txt)
           (fun err => modify (setStatus ("加载失败:" ++ messageOf err))).

Definition loadFromTextOrUrl (input : string) : Script unit :=
  if startsWith "<svg" input || includes "<svg" input then
    tryCatch (modify (setStatus "解析 SVG 文本...") ;; loadText input)
             (fun err => modify (setStatus ("解析失败:" ++ messageOf err)))
  else
    tryCatch
      (modify (setStatus "从 URL 拉取中...") ;;
       match fetch 0 input with
       | NetworkError m => throw (TypeError m)
       | Response ok status body =>
           if negb ok
           then throw (Error ("网络错误 " ++ numberToString (Fin (inject_Z (Z.of_nat status)))))
           else loadText body
       end)
      (fun err => modify (setStatus ("URL 加载失败:" ++ messageOf err))).

(** The paste button, [clip] being the clipboard text when it can be read. *)
Definition onPasteClick (clip : Outcome string) : Script unit :=
  tryCatch
    (c <- liftOutcome clip ;;
     if String.eqb c "" then modify (setStatus "剪贴板为空")
     else loadFromTextOrUrl (trim c))
    (fun err => modify (setStatus ("读取剪贴板失败:" ++ messageOf err))).

Definition onUrlInputEnter : Script unit :=
  fun w =>
    let v := trim (urlInput w) in
    if String.eqb v "" then ret tt w else loadFromTextOrUrl v w.

Definition onLoadSourceClick : Script unit :=
  fun w =>
    let txt := trim (sourceArea w) in
    if String.eqb txt "" then modify (setStatus "源为空") w
    else tryCatch (loadText txt)
                  (fun err => modify (setStatus ("载入失败:" ++ messageOf err))) w.

(** *** Export *)

Definition onDownloadClick (w : World) : World :=
  match svgElement w with
  | None => setStatus "没有可下载的 SVG" w
  | Some el =>
      let xml := serializeToString el in
      setStatus "已生成下载(cleaned.svg)"
        (set_downloads (downloads w ++ [mkDownload "cleaned.svg" "image/svg+xml" xml]) w)
  end.

Definition onClearClick (w : World) : World :=
  setStatus "已清空"
    (set_ty (Fin 0) (set_tx (Fin 0) (set_scale (Fin 1) (set_svgElement None
    (set_urlInput "" (set_fileInput "" (set_sourceArea "" (set_placeholderDisplay "block"
    (set_svgContainerDisplay "none" (set_svgContainer [] w)))))))))).

(** *** Image inliner *)

Definition xlinkNS : option string := Some "http://www.w3.org/1999/xlink".

(** What the loop carries: the working copy, the console, and the number
    of fetches made so far. *)
Record Inlining : Type := mkInlining {
  workingDoc : Document;
  warnings : list string;
  fetches : nat
}.

Definition warn (href : string) (s : Inlining) : Inlining :=
  mkInlining (workingDoc s) (warnings s ++ [("无法内联 " ++ href)%string]) (fetches s).

(** [img.getAttribute("href") || img.getAttributeNS(xlink, "href")] *)
Definition imageHref (img : NodeId) (doc : Document) : option string :=
  orElse (getAttribute img "href" doc) (getAttributeNS img xlinkNS "href" doc).

(** The body of the loop over the images. *)
Definition inlineImage (img : NodeId) (s : Inlining) : Inlining :=
  let href := imageHref img (workingDoc s) in
  match href with
  | None => s
  | Some url =>
      if negb (truthy href) then s
      else if startsWith "data:" url then s
      else
        let s' := mkInlining (workingDoc s) (warnings s) (S (fetches s)) in
        match fetch (fetches s) url with
        | NetworkError _ => warn url s'
        | Response ok _ body =>
            if negb ok then warn url s'
            else match readAsDataURL body with
                 | Some dataUrl =>
                     mkInlining (setAttribute img "href" dataUrl (workingDoc s'))
                                (warnings s') (fetches s')
                 | None => warn url s'
                 end
        end
  end.

Definition inlineImages (images : list NodeId) (s : Inlining) : Inlining :=
  forEach images inlineImage s.

Definition onInlineImgsClick : Script unit :=
  fun w =>
    match svgElement w with
    | None => modify (setStatus "先加载一个 SVG") w
    | Some el =>
        (modify (setStatus "尝试内联外部图片...") ;;
         tryCatch
           (let xml := serializeToString el in
            doc <- liftOutcome (parseSVGText xml) ;;
            let images := querySelectorAll (TypeSelector "image") doc in
            match images with
            | [] => modify (setStatus "没有 <image> 标记需要内联")
            | _ :: _ =>
                let s := inlineImages images (mkInlining doc [] 0) in
                modify (fun w => set_console (console w ++ warnings s) w) ;;
                let doc := sanitizeSVGDocument (workingDoc s) in
                renderSVGDocument doc ;;
                modify (setStatus "内联尝试完成(若部分图片因 CORS 未内联,保留原路径)")
            end)
           (fun err => modify (setStatus ("内联失败:" ++ messageOf err)))) w
    end.

(** *** Zoom controls *)

Definition onZoomInClick (w : World) : World :=
  setScale (mul (scale w) (Fin (12 # 10))) w.

Definition onZoomOutClick (w : World) : World :=
  setScale (div (scale w) (Fin (12 # 10))) w.

Definition onFitViewClick (w : World) : World := adjustFit w.

Definition onKeyDown (key : string) (w : World) : World :=
  let w := if String.eqb key "+" || String.eqb key "=" 
           then setScale (mul (scale w) (Fin (12 # 10))) w else w in
  if String.eqb key "-" then setScale (div (scale w) (Fin (12 # 10))) w else w.

(** *** Pointers *)

(** The Map [state.pointers], in insertion order. *)
Fixpoint map_set (k : Z) (v : Point) (m : list (Z * Point)) : list (Z * Point) :=
  match m with
  | [] => [(k, v)]
  | (k', v') :: rest => if Z.eqb k' k then (k, v) :: rest else (k', v') :: map_set k v rest
  end.

Definition map_has (k : Z) (m : list (Z * Point)) : bool :=
  existsb (fun kv => Z.eqb (fst kv) k) m.

Definition map_delete (k : Z) (m : list (Z * Point)) : list (Z * Point) :=
  filter (fun kv => negb (Z.eqb (fst kv) k)) m.

Record PointerEvent : Type := mkPointerEvent {
  pointerId : Z;
  clientX : Q;
  clientY : Q;
  (* viewer.getBoundingClientRect() at the time of the event *)
  rectLeft : Q;
  rectTop : Q
}.

Definition onPointerDown (e : PointerEvent) (w : World) : World :=
  set_pointers (map_set (pointerId e) (mkPoint (clientX e) (clientY e)) (pointers w)) w.

Definition pan (p : Point) (w : World) : World :=
  if negb (isPanning w) then
    set_last (x p) (y p) (set_isPanning true w)
  else
    let dx := x p - lastX w in
    let dy := y p - lastY w in
    applyTransform
      (set_last (x p) (y p) (set_ty (add (ty w) (Fin dy)) (set_tx (add (tx w) (Fin dx)) w))).

Definition pinch (e : PointerEvent) (p0 p1 : Point) (w : World) : World :=
  let curDist := hypot (x p1 - x p0) (y p1 - y p0) in
  match _pinchStart w with
  | None =>
      set_pinchStart
        (Some (mkPinchStart curDist (scale w)
                 (mkPoint ((x p0 + x p1) / 2) ((y p0 + y p1) / 2)))) w
  | Some start =>
      let ratio := div (Fin curDist) (Fin (dist start)) in
      let newScale := JS.max (minScale w) (JS.min (maxScale w) (mul (pinchScale start) ratio)) in
      let cx := x (center start) - rectLeft e in
      let cy := y (center start) - rectTop e in
      let tx' := sub (tx w) (mul (Fin cx) (sub newScale (scale w))) in
      let ty' := sub (ty w) (mul (Fin cy) (sub newScale (scale w))) in
      applyTransform (set_scale newScale (set_ty ty' (set_tx tx' w)))
  end.

Definition onPointerMove (e : PointerEvent) (w : World) : World :=
  if negb (map_has (pointerId e) (pointers w)) then w
  else
    let w := set_pointers (map_set (pointerId e) (mkPoint (clientX e) (clientY e)) (pointers w)) w in
    match map snd (pointers w) with
    | [p] => pan p w
    | [p0; p1] => pinch e p0 p1 w
    | _ => w
    end.

Definition onPointerUp (e : PointerEvent) (w : World) : World :=
  set_pinchStart None (set_isPanning false
    (set_pointers (map_delete (pointerId e) (pointers w)) w)).

Definition onPointerCancel (e : PointerEvent) (w : World) : World :=
  set_pinchStart None (set_isPanning false
    (set_pointers (map_delete (pointerId e) (pointers w)) w)).

(** *** Wheel *)

Record WheelEvent : Type := mkWheelEvent {
  deltaY : Q;
  wheelX : Q;
  wheelY : Q;
  wheelRectLeft : Q;
  wheelRectTop : Q
}.

Definition onWheel (e : WheelEvent) (w : World) : World :=
  let delta := neg (Fin (deltaY e)) in
  let factor := if gt delta (Fin 0) then Fin (108 # 100) else div (Fin 1) (Fin (108 # 100)) in
  let mx := wheelX e - wheelRectLeft e in
  let my := wheelY e - wheelRectTop e in
  let newScale := JS.max (minScale w) (JS.min (maxScale w) (mul (scale w) factor)) in
  let tx' := sub (tx w) (mul (Fin mx) (sub newScale (scale w))) in
  let ty' := sub (ty w) (mul (Fin my) (sub newScale (scale w))) in
  applyTransform (set_scale newScale (set_ty ty' (set_tx tx' w))).

(** *** The events that zoom, and runs of them *)

Inductive ZoomEvent : Type :=
| ZoomInClick
| ZoomOutClick
| Key (key : string)
| Wheel (e : WheelEvent)
| PointerDown (e : PointerEvent)
| PointerMove (e : PointerEvent)
| PointerUp (e : PointerEvent)
| PointerCancel (e : PointerEvent).

Definition dispatch (ev : ZoomEvent) (w : World) : World :=
  match ev with
  | ZoomInClick => onZoomInClick w
  | ZoomOutClick => onZoomOutClick w
  | Key k => onKeyDown k w
  | Wheel e => onWheel e w
  | PointerDown e => onPointerDown e w
  | PointerMove e => onPointerMove e w
  | PointerUp e => onPointerUp e w
  | PointerCancel e => onPointerCancel e w
  end.

Definition dispatchAll (evs : list ZoomEvent) (w : World) : World :=
  fold_left (fun acc ev => dispatch ev acc) evs w.

End Viewer.

(* ================================================================== *)
(** ** The sanitizer as the specification words it *)

Section Specification.

Context {host : Host}.

(** A [script] or [foreignObject] element. *)
Definition unsafeElement (e : ElementData) : bool :=
  String.eqb (localName e) "script" || String.eqb (localName e) "foreignObject".

(** A name that starts with [on], whatever the case of the two letters. *)
Definition startsWithOn (qname : string) : bool :=
  startsWith "on" (asciiLowerCase qname).

(** A value that, trimmed and in lower case, starts with [javascript:]. *)
Definition javascriptUrl (v : string) : bool :=
  startsWith "javascript:" (toLowerCase (trim v)).

Definition unsafeAttr (a : Attr) : bool :=
  startsWithOn (name a) || javascriptUrl (value a).

Definition safeAttrs (l : list Attr) : list Attr :=
  filter (fun a => negb (unsafeAttr a)) l.

(** The unsafe elements go with all they contain, the unsafe attributes
    go, and nothing else changes. *)
Fixpoint cleanNode (n : Node) : list Node :=
  match n with
  | Element e cs =>
      if unsafeElement e then []
      else [Element (withAttrs e (safeAttrs (attrs e))) (flat_map cleanNode cs)]
  | CharacterData _ _ => [n]
  end.

Definition sanitized (doc : Document) : Document := flat_map cleanNode doc.

(** No unsafe element and no unsafe attribute is left. *)
Definition safeDocument (doc : Document) : Prop :=
  Forall (fun e => unsafeElement e = false /\
                   Forall (fun a => unsafeAttr a = false) (attrs e))
         (elements doc).

End Specification.

(* ================================================================== *)
(** ** What the view shows, and what the proofs speak of *)

(** The style [translate(tx, ty) scale(s)] maps the content coordinate
    [q], taken from the transform origin, to [o + tx + s * q] on the
    surface, [o] being where the origin lies on the surface. *)
Definition surfaceX (o : Q) (w : World) (q : Number) : Number :=
  add (add (Fin o) (tx w)) (mul (scale w) q).

Definition surfaceY (o : Q) (w : World) (q : Number) : Number :=
  add (add (Fin o) (ty w)) (mul (scale w) q).

(** The content coordinate shown at the surface coordinate [a]. *)
Definition contentX (o : Q) (w : World) (a : Q) : Number :=
  div (sub (sub (Fin a) (Fin o)) (tx w)) (scale w).

Definition contentY (o : Q) (w : World) (a : Q) : Number :=
  div (sub (sub (Fin a) (Fin o)) (ty w)) (scale w).

(** The scale is a finite number between the default bounds. *)
Definition scaleClamped (w : World) : Prop := within (1 # 10) 20 (scale w).

Section Invariants.

Context {host : Host}.

(** Two elements of one identity are one element. *)
Definition distinctById (doc : Document) : Prop :=
  forall e e', In e (elements doc) -> In e' (elements doc) -> nodeId e = nodeId e' -> e = e'.

(** No element has two attributes of one qualified name. *)
Definition uniqueNames (doc : Document) : Prop :=
  Forall (fun e => NoDup (map name (attrs e))) (elements doc).

(** The attributes the two tests of the code remove. *)
Definition removedByCode (a : Attr) : bool :=
  test_on_i (name a) || javascriptValue (value a).

Definition keptByCode (l : list Attr) : list Attr :=
  filter (fun a => negb (removedByCode a)) l.

(** The effect of [sanitizeAttribute] on the attribute list it works on. *)
Definition attrStep (a : Attr) (l : list Attr) : list Attr :=
  let l := if test_on_i (name a) then attrs_remove (name a) l else l in
  if javascriptValue (value a) then attrs_remove (name a) l else l.

(** The element is one of the nodes [ids]. *)
Definition anyId (ids : list NodeId) (e : ElementData) : bool :=
  existsb (fun i => hasId i e) ids.

(** The subtree holds an element of that local name: a search down the
    tree, as the words have it. *)
Fixpoint holdsElementNamed (lname : string) (n : Node) : bool :=
  match n with
  | Element e cs => String.eqb (localName e) lname || existsb (holdsElementNamed lname) cs
  | CharacterData _ _ => false
  end.

(** The document holds an element named parsererror, wherever and however
    it came there. *)
Definition holdsErrorElement (doc : Document) : bool :=
  existsb (holdsElementNamed "parsererror") doc.

(** The test of the code on a parsed document: one of its elements has the
    local name parsererror. *)
Definition hasErrorNode (doc : Document) : bool :=
  existsb (fun e => String.eqb (localName e) "parsererror") (elements doc).


(** A numeric value, in the plain sense of the word: a decimal numeral
    and nothing else (an optional sign, digits with at most one point, an
    optional exponent). *)
Definition isDigit (c : ascii) : bool :=
  Nat.leb 48 (nat_of_ascii c) && Nat.leb (nat_of_ascii c) 57.

Fixpoint skipDigits (s : string) : nat * string :=
  match s with
  | String c r => if isDigit c then let (n, t) := skipDigits r in (S n, t) else (0%nat, s)
  | EmptyString => (0%nat, s)
  end.

Definition skipSign (s : string) : string :=
  match s with
  | String c r => if Ascii.eqb c "-" || Ascii.eqb c "+" then r else s
  | EmptyString => s
  end.

Definition decimalNumeral (s : string) : bool :=
  let (whole, r1) := skipDigits (skipSign s) in
  let (fraction, r2) :=
    match r1 with
    | String c r => if Ascii.eqb c "." then skipDigits r else (0%nat, r1)
    | EmptyString => (0%nat, r1)
    end in
  negb (Nat.eqb (whole + fraction) 0) &&
  match r2 with
  | EmptyString => true
  | String c r =>
      (Ascii.eqb c "e" || Ascii.eqb c "E") &&
      (let (exponent, r3) := skipDigits (skipSign r) in
       negb (Nat.eqb exponent 0) && String.eqb r3 "")
  end.

(** The test of the code on width and height: parseFloat reads a number
    from the value.  A numeral the value starts with is enough. *)
Definition readsAsNumber (v : string) : bool := negb (isNaN (parseFloat v)).

(** The name of the attribute the viewBox step looks for and writes:
    [viewbox] on a root of the XHTML namespace, [viewBox] on any other. *)
Definition viewBoxName (e : ElementData) : string :=
  if option_eqb (namespaceURI e) htmlNS then "viewbox" else "viewBox".

(** The attributes of the mounted clone of the root [e]: when no attribute
    is named [viewBoxName e] and parseFloat reads numbers from width and
    height, one of that name is added after the others; nothing else
    changes. *)
Definition withViewBox (e : ElementData) : list Attr :=
  let l := attrs e in
  if attrs_has (viewBoxName e) l then l
  else
    match attrs_get "width" l, attrs_get "height" l with
    | Some ws, Some hs =>
        if readsAsNumber ws && readsAsNumber hs
        then l ++ [mkAttr None None (viewBoxName e)
                     ("0 0 " ++ numberToString (parseFloat ws) ++ " "
                        ++ numberToString (parseFloat hs))%string]
        else l
    | _, _ => l
    end.

(** The bounds of the scale are the ones the script starts with. *)
Definition boundsAtDefault (w : World) : Prop :=
  minScale w = Fin (1 # 10) /\ maxScale w = Fin 20.

(** The pinch anchor, when there is one, was captured with the contacts
    apart. *)
Definition anchorUsable (w : World) : Prop :=
  forall start, _pinchStart w = Some start -> ~ dist start == 0.

(** ... after every event of the run [evs] from [w]. *)
Fixpoint anchorsUsable (evs : list ZoomEvent) (w : World) : Prop :=
  match evs with
  | [] => True
  | ev :: rest => anchorUsable (dispatch ev w) /\ anchorsUsable rest (dispatch ev w)
  end.

(** What every zoom handler keeps when the anchor is usable. *)
Definition zoomInvariant (w : World) : Prop :=
  scaleClamped w /\ boundsAtDefault w /\
  forall start, _pinchStart w = Some start -> within (1 # 10) 20 (pinchScale start).

End Invariants.

(* ================================================================== *)
(** ** A small host, to run the script on concrete inputs

    None of the general theorems depends on it.  It knows ASCII white
    space and letters, decimal numerals without exponent, the documents
    listed in [knownDocuments] (its parser inverts its serializer on
    them and reports an error on any other text), and three addresses. *)

Module Scenario.

Definition isSpace (c : ascii) : bool :=
  let n := nat_of_ascii c in Nat.eqb n 32 || (Nat.leb 9 n && Nat.leb n 13).

Fixpoint trimStart (s : string) : string :=
  match s with
  | String c r => if isSpace c then trimStart r else s
  | EmptyString => s
  end.

Definition reverse (s : string) : string :=
  string_of_list_ascii (rev (list_ascii_of_string s)).

Definition trim (s : string) : string := reverse (trimStart (reverse (trimStart s))).

Definition toLowerCase (s : string) : string := asciiLowerCase s.

Definition digit (c : ascii) : option Z :=
  let n := nat_of_ascii c in
  if Nat.leb 48 n && Nat.leb n 57 then Some (Z.of_nat (n - 48)) else None.

(** The digits [s] starts with: their value after [acc], how many more
    were read after [count], and what follows them. *)
Fixpoint digits (s : string) (acc : Z) (count : nat) : Z * nat * string :=
  match s with
  | String c r =>
      match digit c with
      | Some d => digits r (10 * acc + d)%Z (S count)
      | None => (acc, count, s)
      end
  | EmptyString => (acc, count, s)
  end.

Definition parseUnsigned (s : string) : Number :=
  let '(i, ni, rest) := digits s 0%Z 0%nat in
  match rest with
  | String "."%char rest' =>
      let '(f, nf, _) := digits rest' 0%Z 0%nat in
      if Nat.eqb (ni + nf) 0 then NaN
      else Fin (Qred (inject_Z i + (f # Pos.of_nat (10 ^ nf))))
  | _ => if Nat.eqb ni 0 then NaN else Fin (inject_Z i)
  end.

Definition parseFloat (s : string) : Number :=
  match trimStart s with
  | String "-"%char r => neg (parseUnsigned r)
  | String "+"%char r => parseUnsigned r
  | s' => parseUnsigned s'
  end.

(** Up to [n] decimals of the fraction [num / den], [0 <= num < den]. *)
Fixpoint decimals (n : nat) (num den : Z) : string :=
  match n with
  | O => ""
  | S n' =>
      if Z.eqb num 0 then ""
      else NilZero.string_of_int (Z.to_int (10 * num / den))
             ++ decimals n' ((10 * num) mod den)%Z den
  end.

Definition numberToString (n : Number) : string :=
  match n with
  | NaN => "NaN"
  | Inf false => "Infinity"
  | Inf true => "-Infinity"
  | Fin q =>
      let num := Qnum (Qred q) in
      let den := Zpos (Qden (Qred q)) in
      if Z.eqb den 1 then NilZero.string_of_int (Z.to_int num)
      else (if Z.ltb num 0 then "-" else "")
             ++ NilZero.string_of_int (Z.to_int (Z.abs num / den)) ++ "."
             ++ decimals 17 (Z.abs num mod den) den
  end.

(** Square roots to eight decimals, exact on squares. *)
Definition hypot (a b : Q) : Q :=
  let q := Qred (a * a + b * b) in
  let s := (10 ^ 8)%Z in
  Qred (Z.sqrt (Qnum q * Zpos (Qden q) * s * s) # (Qden q * Z.to_pos s)).

Definition dq : string := String (ascii_of_nat 34) EmptyString.

Definition tagName (e : ElementData) : string :=
  match prefix e with
  | Some p => p ++ ":" ++ localName e
  | None => localName e
  end.

Definition serializeAttr (a : Attr) : string :=
  " " ++ name a ++ "=" ++ dq ++ value a ++ dq.

(** Markup of a tree, nothing escaped. *)
Fixpoint serializeToString (n : Node) : string :=
  match n with
  | Element e cs =>
      "<" ++ tagName e ++ String.concat "" (map serializeAttr (attrs e))
        ++ match cs with
           | [] => "/>"
           | _ => ">" ++ String.concat "" (map serializeToString cs)
                      ++ "</" ++ tagName e ++ ">"
           end
  | CharacterData TextNode d => d
  | CharacterData CDataSection d => "<![CDATA[" ++ d ++ "]]>"
  | CharacterData Comment d => "<!--" ++ d ++ "-->"
  | CharacterData ProcessingInstruction d => "<?" ++ d ++ "?>"
  | CharacterData DocumentType d => "<!DOCTYPE " ++ d ++ ">"
  end.

Definition plain (n v : string) : Attr := mkAttr None None n v.

Definition xlink (n v : string) : Attr := mkAttr xlinkNS (Some "xlink") n v.

Definition el (i : nat) (n : string) (a : list Attr) (cs : list Node) : Node :=
  Element (mkElement i None None n a) cs.

(** An element of the XHTML namespace, as [<svg xmlns=...xhtml>] parses. *)
Definition xhtml (i : nat) (n : string) (a : list Attr) (cs : list Node) : Node :=
  Element (mkElement i htmlNS None n a) cs.

(** The svg element with width 100 and height 50, holding one circle. *)
Definition sizedDoc : Document :=
  [el 1 "svg" [plain "width" "100"; plain "height" "50"]
     [el 2 "circle" [plain "r" "5"] []]].

Definition sizedText : string :=
  "<svg width=" ++ dq ++ "100" ++ dq ++ " height=" ++ dq ++ "50" ++ dq
    ++ "><circle r=" ++ dq ++ "5" ++ dq ++ "/></svg>".

(** A document with executable content. *)
Definition unsafeDoc : Document :=
  [el 1 "svg" [plain "onload" "alert(1)"; plain "width" "10"]
     [el 2 "script" [] [CharacterData TextNode "alert(2)"];
      el 3 "rect" [plain "width" "10"; plain "ONCLICK" "x()"; plain "height" "10"] [];
      el 4 "a" [xlink "href" "  JavaScript:alert(3)"; plain "id" "link"]
        [CharacterData TextNode "go"];
      el 5 "foreignObject" [] [el 6 "div" [plain "onclick" "y()"] []];
      CharacterData Comment "kept"]].

(** Images: one behind an XLink reference, one inline already, one that
    cannot be fetched, one without reference. *)
Definition imagesDoc : Document :=
  [el 1 "svg" []
     [el 2 "image" [xlink "href" "http://example.org/a.png"; plain "width" "4"] [];
      el 3 "image" [plain "href" "data:image/png;base64,AAAA"] [];
      el 4 "image" [plain "href" "http://example.org/missing.png"] [];
      el 5 "image" [plain "width" "4"] []]].

Definition knownDocuments : list Document := [sizedDoc; unsafeDoc; imagesDoc].

Definition errorDocument : Document :=
  [el 0 "parsererror" [] [CharacterData TextNode "error"]].

Definition serializesTo (text : string) (doc : Document) : bool :=
  match documentElement doc with
  | Some root => String.eqb (serializeToString root) text
  | None => false
  end.

Definition parseFromString (text : string) : Document :=
  match find (serializesTo text) knownDocuments with
  | Some doc => doc
  | None => errorDocument
  end.

Definition fetch (n : nat) (url : string) : FetchResult :=
  if String.eqb url "http://example.org/a.png" then Response true 200 "iVBORw0KGgo="
  else if String.eqb url "http://example.org/missing.png" then Response false 404 ""
  else NetworkError "Failed to fetch".

Definition readAsDataURL (body : string) : option string :=
  Some ("data:image/png;base64," ++ body)%string.

Definition host : Host :=
  Build_Host trim toLowerCase parseFloat numberToString hypot parseFromString
             serializeToString fetch readAsDataURL
             "Failed to execute 'importNode' on 'Document': parameter 1 is not of type 'Node'.".

End Scenario.

(* ================================================================== *)
(** ** Concrete runs, on the small host *)

Module Trace.

(** A pointer event, the viewer at the corner of the page. *)
Definition pe (i : Z) (cx cy : Q) : PointerEvent := mkPointerEvent i cx cy 0 0.

(** One click on zoom-in: scale 1.2, nothing translated, no document. *)
Definition zoomedWorld : World := @dispatch Scenario.host ZoomInClick initialWorld.

(** The wheel turned towards zoom-in with the cursor at (10, 10). *)
Definition wheelAt10 : WheelEvent := mkWheelEvent (-100) 10 10 0 0.

(** Two contacts on one point, one of them reporting twice. *)
Definition degenerate : list ZoomEvent :=
  [PointerDown (pe 1 5 5); PointerDown (pe 2 5 5); PointerMove (pe 2 5 5); PointerMove (pe 2 5 5)].

(** A pan by 50 with one contact, then a second contact 100 away and the
    move that captures the pinch anchor. *)
Definition panThenCapture : list ZoomEvent :=
  [PointerDown (pe 1 0 100); PointerMove (pe 1 0 100); PointerMove (pe 1 50 100);
   PointerDown (pe 2 150 100); PointerMove (pe 2 150 100)].

(** The two contacts spread to 200 apart about the center they had. *)
Definition spread : list ZoomEvent := [PointerMove (pe 1 0 100); PointerMove (pe 2 200 100)].

Definition afterCapture : World :=
  @dispatchAll Scenario.host panThenCapture initialWorld.

End Trace.

(** The root of [Scenario.sizedDoc]. *)
Definition sizedRoot : Node :=
  Scenario.el 1 "svg" [Scenario.plain "width" "100"; Scenario.plain "height" "50"]
    [Scenario.el 2 "circle" [Scenario.plain "r" "5"] []].

(** Distinct identities and names of a concrete document. *)
Ltac distinct_list :=
  repeat (apply NoDup_cons; [simpl; intuition (try discriminate; try lia)|]); apply NoDup_nil.

Ltac well_formed :=
  split; [simpl; distinct_list|];
  simpl; repeat (apply Forall_cons; [simpl; distinct_list|]); apply Forall_nil.

(* ================================================================== *)
(** ** More of the script: the source panel and the drop target *)

(** [let showSource], the display of the toolbar and the label of the
    button that toggles it. *)
Record SourcePanel : Type := mkSourcePanel {
  showSource : bool;
  toolbarDisplay : string;
  toggleSourceText : string
}.

Definition onToggleSourceClick (p : SourcePanel) : SourcePanel :=
  let s := negb (showSource p) in
  mkSourcePanel s (if s then "block" else "none") (if s then "隐藏源" else "查看源").

(** The toolbar and the label say what the flag says. *)
Definition panelConsistent (p : SourcePanel) : Prop :=
  toolbarDisplay p = (if showSource p then "block" else "none")
  /\ toggleSourceText p = (if showSource p then "隐藏源" else "查看源").

Section Drop.

Context {host : Host}.

Local Open Scope script_scope.

(** The drop handler: [file] is the text of the first dropped file when
    there is one, [plain] and [uriList] what getData answers for
    text/plain and text/uri-list (empty when there is none). *)
Definition onDrop (file : option string) (plain uriList : string) : Script unit :=
  match file with
  | Some txt => onFileText txt
  | None =>
      let text := if String.eqb plain "" then uriList else plain in
      if String.eqb text "" then ret tt else loadFromTextOrUrl (trim text)
  end.

End Drop.

(** The identities of the elements of a subtree, in document order. *)
Definition idsOf (n : Node) : list NodeId := map nodeId (elementsOf n).

(** The tree without its attributes. *)
Definition skeleton (doc : Document) : Document := update (fun _ => []) doc.

(** The view shows the content as it is: scale 1, nothing translated. *)
Definition identityView (w : World) : Prop :=
  scale w = Fin 1 /\ tx w = Fin 0 /\ ty w = Fin 0.

(** The contacts that are down, by identifier. *)
Definition contactIds (w : World) : list Z := map fst (pointers w).

(** A host whose parser answers a document with a script element for root,
    whatever the text. *)
(** A host whose parser accepts one text, well-formed markup in which an
    element happens to be named parsererror, and answers the error
    document for every other text. *)
Module ParsererrorScenario.

Definition namedDoc : Document :=
  [Scenario.el 1 "svg" [] [Scenario.el 2 "parsererror" [] []]].

Definition namedText : string := "<svg><parsererror/></svg>".

(** The text is well-formed: the parser reports no error. *)
Definition wellFormedText (text : string) : bool := String.eqb text namedText.

Definition parseFromString (text : string) : Document :=
  if wellFormedText text then namedDoc else Scenario.errorDocument.

Definition host : Host :=
  Build_Host Scenario.trim Scenario.toLowerCase Scenario.parseFloat Scenario.numberToString
             Scenario.hypot parseFromString Scenario.serializeToString
             Scenario.fetch Scenario.readAsDataURL
             "Failed to execute 'importNode' on 'Document': parameter 1 is not of type 'Node'.".

End ParsererrorScenario.

Module RootlessScenario.

Definition scriptDoc : Document :=
  [Scenario.el 1 "script" [] [CharacterData TextNode "alert(1)"]].

Definition host : Host :=
  Build_Host Scenario.trim Scenario.toLowerCase Scenario.parseFloat Scenario.numberToString
             Scenario.hypot (fun _ => scriptDoc) Scenario.serializeToString
             Scenario.fetch Scenario.readAsDataURL "parameter 1 is not of type 'Node'.".

End RootlessScenario.

(** One contact down and the pan under way. *)
Definition panning : World :=
  @dispatchAll Scenario.host
    [PointerDown (Trace.pe 1 0 100); PointerMove (Trace.pe 1 0 100)] initialWorld.

Section Rendered.

Context {host : Host}.

(** The world after the element [root] was rendered from [w]. *)
Definition rendered (root : Node) (w : World) : World :=
  run (renderSVGDocument [root]) w.

End Rendered.

(** ** The page as a whole: every listener the script registers *)

Section Page.

Context {host : Host}.

(** What can happen to the page.  The two edits are the user typing into
    the address box and the source area; the others are the listeners of
    the script, each run to its end before the next event. *)
Inductive PageEvent : Type :=
| FileChange (file : option string)
| DropData (file : option string) (plain uriList : string)
| PasteClick (clip : Outcome string)
| UrlInputEdit (v : string)
| UrlInputKeyDown (key : string)
| SourceAreaEdit (v : string)
| LoadSourceClick
| DownloadClick
| ClearClick
| InlineImgsClick
| FitViewClick
| ZoomControl (ev : ZoomEvent).

Definition handle (ev : PageEvent) (w : World) : World :=
  match ev with
  | FileChange None => w
  | FileChange (Some txt) => run (onFileText txt) w
  | DropData file plain uriList => run (onDrop file plain uriList) w
  | PasteClick clip => run (onPasteClick clip) w
  | UrlInputEdit v => set_urlInput v w
  | UrlInputKeyDown key => if String.eqb key "Enter" then run onUrlInputEnter w else w
  | SourceAreaEdit v => set_sourceArea v w
  | LoadSourceClick => run onLoadSourceClick w
  | DownloadClick => onDownloadClick w
  | ClearClick => onClearClick w
  | InlineImgsClick => run onInlineImgsClick w
  | FitViewClick => onFitViewClick w
  | ZoomControl ev => dispatch ev w
  end.

Definition handleAll (evs : list PageEvent) (w : World) : World :=
  fold_left (fun acc ev => handle ev acc) evs w.

(** No element and no attribute of [n] is one the sanitizer removes. *)
Definition cleanByCode (es : list ElementData) : Prop :=
  Forall (fun e => unsafeElement e = false /\
                   Forall (fun a => removedByCode a = false) (attrs e)) es.

(** The current document holds nothing the sanitizer removes. *)
Definition currentSanitized (w : World) : Prop :=
  match svgElement w with
  | Some root => cleanByCode (elementsOf root)
  | None => True
  end.

(** The container shows the current document, after the viewBox step, and
    nothing else. *)
Definition mountedCurrent (w : World) : Prop :=
  svgContainer w = match svgElement w with
                   | Some root => [ensureViewBox root]
                   | None => []
                   end.

Definition pageInvariant (w : World) : Prop := currentSanitized w /\ mountedCurrent w.

(** The statement keeps the invariant of the page, however it ends. *)
Definition keeps {A : Type} (m : Script A) : Prop :=
  forall w, pageInvariant w -> pageInvariant (snd (m w)).

End Page.

(* ================================================================== *)
(** * Proofs *)
(** ** Lists *)

Section ListFacts.

Variables A B C : Type.

Lemma flat_map_flat_map (f : A -> list B) (g : B -> list C) (l : list A) :
  flat_map g (flat_map f l) = flat_map (fun a => flat_map g (f a)) l.
Proof.
  induction l as [|a l IH]; simpl; [reflexivity|].
  now rewrite flat_map_app, IH.
Qed.

Lemma map_flat_map (f : A -> list B) (g : B -> C) (l : list A) :
  map g (flat_map f l) = flat_map (fun a => map g (f a)) l.
Proof.
  induction l as [|a l IH]; simpl; [reflexivity|].
  now rewrite map_app, IH.
Qed.

Lemma flat_map_map (f : A -> B) (g : B -> list C) (l : list A) :
  flat_map g (map f l) = flat_map (fun a => g (f a)) l.
Proof.
  induction l as [|a l IH]; simpl; [reflexivity|].
  now rewrite IH.
Qed.

Lemma flat_map_ext_Forall (f g : A -> list B) (l : list A) :
  Forall (fun a => f a = g a) l -> flat_map f l = flat_map g l.
Proof.
  induction 1 as [|a l Ha _ IH]; simpl; [reflexivity|].
  now rewrite Ha, IH.
Qed.

Lemma NoDup_map_injective (f : A -> B) (l : list A) (a b : A) :
  NoDup (map f l) -> In a l -> In b l -> f a = f b -> a = b.
Proof.
  induction l as [|c l IH]; simpl; [tauto|].
  intros Hnd Ha Hb Hab. inversion Hnd as [|? ? Hnotin Hnd']; subst.
  destruct Ha as [<-|Ha], Hb as [<-|Hb]; auto.
  - exfalso. apply Hnotin. rewrite Hab. now apply in_map.
  - exfalso. apply Hnotin. rewrite <- Hab. now apply in_map.
Qed.

Lemma filter_keeps_distinct (key : A -> B) (keep : A -> bool) (xs : list A)
    (Hxs : NoDup (map key xs)) :
  NoDup (map key (filter keep xs)).
Proof.
  induction xs as [|a xs IH]; simpl in *; [constructor|].
  inversion Hxs as [|? ? Hnotin Hxs']; subst.
  destruct (keep a); simpl; auto.
  constructor; auto.
  intros Hin. apply Hnotin.
  apply in_map_iff in Hin as (b & Hb & Hin).
  apply filter_In in Hin as [Hin _].
  rewrite <- Hb. now apply in_map.
Qed.

Lemma filter_filter_same (p : A -> bool) (l : list A) :
  filter p (filter p l) = filter p l.
Proof.
  induction l as [|a l IH]; simpl; [reflexivity|].
  destruct (p a) eqn:E; simpl; rewrite ?E, IH; reflexivity.
Qed.

End ListFacts.

(** ** Trees *)

Section TreeFacts.

Lemma withAttrs_attrs (e : ElementData) : withAttrs e (attrs e) = e.
Proof. now destruct e. Qed.

Lemma pruneNode_pruneNode (p q : ElementData -> bool) (n : Node) :
  flat_map (pruneNode p) (pruneNode q n) = pruneNode (fun e => q e || p e) n.
Proof.
  induction n as [e cs IH|k d] using Node_induction; simpl; [|reflexivity].
  destruct (q e); simpl; [reflexivity|].
  destruct (p e); simpl; [reflexivity|].
  rewrite flat_map_flat_map.
  now rewrite (flat_map_ext_Forall _ _ IH).
Qed.

Lemma prune_prune (p q : ElementData -> bool) (doc : Document) :
  prune p (prune q doc) = prune (fun e => q e || p e) doc.
Proof.
  unfold prune. rewrite flat_map_flat_map.
  apply flat_map_ext. intros n. apply pruneNode_pruneNode.
Qed.

Lemma pruneNode_ext (p q : ElementData -> bool) (n : Node) :
  (forall e, In e (elementsOf n) -> p e = q e) -> pruneNode p n = pruneNode q n.
Proof.
  induction n as [e cs IH|k d] using Node_induction; simpl; intros H; [|reflexivity].
  rewrite <- (H e) by now left.
  destruct (p e); [reflexivity|].
  do 2 f_equal. apply flat_map_ext_Forall.
  rewrite Forall_forall in IH |- *. intros c Hc. apply IH; [exact Hc|].
  intros e' He'. apply H. right. apply in_flat_map. now exists c.
Qed.

Lemma prune_ext (p q : ElementData -> bool) (doc : Document) :
  (forall e, In e (elements doc) -> p e = q e) -> prune p doc = prune q doc.
Proof.
  intros H. apply flat_map_ext_Forall, Forall_forall. intros n Hn.
  apply pruneNode_ext. intros e He. apply H. apply in_flat_map. now exists n.
Qed.

Lemma elementsOf_pruneNode (p : ElementData -> bool) (n : Node) (e : ElementData) :
  In e (flat_map elementsOf (pruneNode p n)) -> In e (elementsOf n) /\ p e = false.
Proof.
  induction n as [e0 cs IH|k d] using Node_induction; simpl; [|tauto].
  destruct (p e0) eqn:E; simpl; [tauto|].
  rewrite app_nil_r. intros [<-|Hin]; [tauto|].
  rewrite flat_map_flat_map in Hin. apply in_flat_map in Hin as (c & Hc & Hin).
  rewrite Forall_forall in IH. destruct (IH c Hc Hin) as [H1 H2].
  split; [|exact H2]. right. apply in_flat_map. now exists c.
Qed.

Lemma elements_prune (p : ElementData -> bool) (doc : Document) (e : ElementData) :
  In e (elements (prune p doc)) -> In e (elements doc) /\ p e = false.
Proof.
  unfold elements, prune. rewrite flat_map_flat_map.
  intros Hin. apply in_flat_map in Hin as (n & Hn & Hin).
  destruct (elementsOf_pruneNode _ _ _ Hin) as [H1 H2].
  split; [|exact H2]. apply in_flat_map. now exists n.
Qed.

Lemma updateNode_updateNode (f g : ElementData -> list Attr) (n : Node) :
  updateNode f (updateNode g n) = updateNode (fun e => f (withAttrs e (g e))) n.
Proof.
  induction n as [e cs IH|k d] using Node_induction; simpl; [|reflexivity].
  f_equal. rewrite map_map. now apply map_ext_Forall.
Qed.

Lemma update_update (f g : ElementData -> list Attr) (doc : Document) :
  update f (update g doc) = update (fun e => f (withAttrs e (g e))) doc.
Proof.
  unfold update. rewrite map_map. apply map_ext. intros n. apply updateNode_updateNode.
Qed.

Lemma updateNode_ext (f g : ElementData -> list Attr) (n : Node) :
  (forall e, In e (elementsOf n) -> f e = g e) -> updateNode f n = updateNode g n.
Proof.
  induction n as [e cs IH|k d] using Node_induction; simpl; intros H; [|reflexivity].
  rewrite (H e) by now left. f_equal.
  apply map_ext_Forall. rewrite Forall_forall in IH |- *. intros c Hc.
  apply IH; [exact Hc|]. intros e' He'. apply H. right. apply in_flat_map. now exists c.
Qed.

Lemma update_ext (f g : ElementData -> list Attr) (doc : Document) :
  (forall e, In e (elements doc) -> f e = g e) -> update f doc = update g doc.
Proof.
  intros H. apply map_ext_Forall, Forall_forall. intros n Hn.
  apply updateNode_ext. intros e He. apply H. apply in_flat_map. now exists n.
Qed.

Lemma updateNode_attrs (n : Node) : updateNode attrs n = n.
Proof.
  induction n as [e cs IH|k d] using Node_induction; simpl; [|reflexivity].
  rewrite withAttrs_attrs. f_equal.
  rewrite <- (map_id cs) at 2. now apply map_ext_Forall.
Qed.

Lemma update_attrs (doc : Document) : update attrs doc = doc.
Proof.
  unfold update. rewrite <- (map_id doc) at 2. apply map_ext. apply updateNode_attrs.
Qed.

Lemma elementsOf_updateNode (f : ElementData -> list Attr) (n : Node) :
  elementsOf (updateNode f n) = map (fun e => withAttrs e (f e)) (elementsOf n).
Proof.
  induction n as [e cs IH|k d] using Node_induction; simpl; [|reflexivity].
  f_equal. rewrite flat_map_map, map_flat_map. now apply flat_map_ext_Forall.
Qed.

Lemma elements_update (f : ElementData -> list Attr) (doc : Document) :
  elements (update f doc) = map (fun e => withAttrs e (f e)) (elements doc).
Proof.
  unfold elements, update. rewrite flat_map_map, map_flat_map.
  apply flat_map_ext. apply elementsOf_updateNode.
Qed.

Lemma pruneNode_none (n : Node) : pruneNode (fun _ => false) n = [n].
Proof.
  induction n as [e cs IH|k d] using Node_induction; simpl; [|reflexivity].
  do 2 f_equal. rewrite (flat_map_ext_Forall _ (fun c => [c]) IH).
  clear IH. induction cs as [|c cs IH]; simpl; [reflexivity|]. now rewrite IH.
Qed.

Lemma prune_none (doc : Document) : prune (fun _ => false) doc = doc.
Proof.
  unfold prune. rewrite (flat_map_ext _ (fun c => [c]) pruneNode_none).
  induction doc as [|c cs IH]; simpl; [reflexivity|]. now rewrite IH.
Qed.

End TreeFacts.

(** ** The sanitizer *)

Section SanitizerFacts.

Context {host : Host}.

Lemma wellFormed_distinctById (doc : Document) : wellFormed doc -> distinctById doc.
Proof.
  intros [Hnd _] e e' He He' Hid. exact (NoDup_map_injective _ _ _ _ Hnd He He' Hid).
Qed.

Lemma attributes_of (doc : Document) (e : ElementData) :
  distinctById doc -> In e (elements doc) -> attributes (nodeId e) doc = attrs e.
Proof.
  intros Hd He. unfold attributes.
  destruct (find (hasId (nodeId e)) (elements doc)) as [e'|] eqn:F.
  - apply find_some in F as [He' Hid]. unfold hasId in Hid.
    apply Nat.eqb_eq in Hid. now rewrite (Hd e' e He' He Hid).
  - apply (find_none _ _ F) in He. unfold hasId in He. now rewrite Nat.eqb_refl in He.
Qed.

Lemma forEach_remove (ids : list NodeId) (doc : Document) :
  forEach ids remove doc = prune (anyId ids) doc.
Proof.
  unfold forEach. revert doc. induction ids as [|i ids IH]; intros doc; simpl.
  - symmetry. apply prune_none.
  - rewrite IH. unfold remove. rewrite prune_prune. reflexivity.
Qed.

Lemma anyId_querySelectorAll (doc : Document) (n : string) (e : ElementData) :
  distinctById doc -> In e (elements doc) ->
  anyId (querySelectorAll (TypeSelector n) doc) e = String.eqb (localName e) n.
Proof.
  intros Hd He. unfold anyId, querySelectorAll.
  destruct (String.eqb (localName e) n) eqn:E.
  - apply existsb_exists. exists (nodeId e). split.
    + apply in_map. apply filter_In. now split.
    + unfold hasId. apply Nat.eqb_refl.
  - apply not_true_is_false. intros H.
    apply existsb_exists in H as (i & Hi & Hid).
    apply in_map_iff in Hi as (e' & <- & He').
    apply filter_In in He' as [He' Hm]. simpl in Hm.
    unfold hasId in Hid. apply Nat.eqb_eq in Hid.
    rewrite (Hd e e' He He' Hid) in E. congruence.
Qed.

Lemma distinctById_prune (p : ElementData -> bool) (doc : Document) :
  distinctById doc -> distinctById (prune p doc).
Proof.
  intros Hd e e' He He'. apply elements_prune in He as [He _], He' as [He' _]. now apply Hd.
Qed.

Lemma uniqueNames_prune (p : ElementData -> bool) (doc : Document) :
  uniqueNames doc -> uniqueNames (prune p doc).
Proof.
  unfold uniqueNames. rewrite !Forall_forall. intros H e He.
  apply elements_prune in He as [He _]. now apply H.
Qed.

(** Removing the nodes a type selector found prunes by local name. *)
Lemma remove_all_matching (n : string) (doc : Document) :
  distinctById doc ->
  forEach (querySelectorAll (TypeSelector n) doc) remove doc
  = prune (fun e => String.eqb (localName e) n) doc.
Proof.
  intros Hd. rewrite forEach_remove. apply prune_ext.
  intros e He. now apply anyId_querySelectorAll.
Qed.

Lemma onElement_onElement (el : NodeId) (f g : list Attr -> list Attr) (doc : Document) :
  onElement el f (onElement el g doc) = onElement el (fun l => f (g l)) doc.
Proof.
  unfold onElement. rewrite update_update. apply update_ext. intros e _.
  unfold hasId. simpl. now destruct (Nat.eqb (nodeId e) el).
Qed.

Lemma onElement_same (el : NodeId) (doc : Document) : onElement el (fun l => l) doc = doc.
Proof.
  unfold onElement. rewrite <- (update_attrs doc) at 2. apply update_ext.
  intros e _. now destruct (hasId el e).
Qed.

Lemma onElement_ext (el : NodeId) (f g : list Attr -> list Attr) (doc : Document) :
  (forall e, In e (elements doc) -> nodeId e = el -> f (attrs e) = g (attrs e)) ->
  onElement el f doc = onElement el g doc.
Proof.
  intros H. apply update_ext. intros e He. unfold hasId.
  destruct (Nat.eqb (nodeId e) el) eqn:E; [|reflexivity].
  apply Nat.eqb_eq in E. now apply H.
Qed.

Lemma sanitizeAttribute_onElement (el : NodeId) (a : Attr) (doc : Document) :
  sanitizeAttribute el a doc = onElement el (attrStep a) doc.
Proof.
  unfold sanitizeAttribute, attrStep, removeAttribute.
  destruct (test_on_i (name a)), (javascriptValue (value a));
    rewrite ?onElement_onElement, ?onElement_same; reflexivity.
Qed.

Lemma forEach_sanitizeAttribute (el : NodeId) (l : list Attr) (doc : Document) :
  forEach l (sanitizeAttribute el) doc
  = onElement el (fun cur => fold_left (fun acc a => attrStep a acc) l cur) doc.
Proof.
  unfold forEach. revert doc. induction l as [|a l IH]; intros doc; simpl.
  - now rewrite onElement_same.
  - now rewrite IH, sanitizeAttribute_onElement, onElement_onElement.
Qed.

Lemma attrs_remove_absent (qn : string) (l : list Attr) :
  ~ In qn (map name l) -> attrs_remove qn l = l.
Proof.
  induction l as [|a l IH]; simpl; intros H; [reflexivity|].
  destruct (String.eqb (name a) qn) eqn:E.
  - apply String.eqb_eq in E. tauto.
  - rewrite IH; tauto.
Qed.

Lemma attrs_remove_first (a : Attr) (pre rest : list Attr) :
  ~ In (name a) (map name pre) ->
  attrs_remove (name a) (pre ++ a :: rest) = pre ++ rest.
Proof.
  induction pre as [|b pre IH]; simpl; intros H.
  - now rewrite String.eqb_refl.
  - destruct (String.eqb (name b) (name a)) eqn:E.
    + apply String.eqb_eq in E. tauto.
    + rewrite IH; tauto.
Qed.

Lemma fold_attrStep (rest pre : list Attr) :
  NoDup (map name (pre ++ rest)) ->
  fold_left (fun acc a => attrStep a acc) rest (pre ++ rest) = pre ++ keptByCode rest.
Proof.
  revert pre. induction rest as [|a rest IH]; intros pre Hnd; simpl; [reflexivity|].
  assert (Hpre : ~ In (name a) (map name pre) /\ ~ In (name a) (map name (pre ++ rest))).
  { rewrite map_app in Hnd. simpl in Hnd.
    pose proof (NoDup_remove_2 _ _ _ Hnd) as H.
    rewrite map_app. split; [|exact H].
    intros Hin. apply H. apply in_or_app. now left. }
  destruct Hpre as [Hpre Hall].
  assert (Hnd' : NoDup (map name (pre ++ rest))).
  { rewrite map_app in Hnd |- *. simpl in Hnd. exact (NoDup_remove_1 _ _ _ Hnd). }
  unfold removedByCode, attrStep at 2.
  destruct (test_on_i (name a)); simpl.
  - rewrite attrs_remove_first by assumption.
    destruct (javascriptValue (value a)).
    + rewrite attrs_remove_absent by assumption. now apply IH.
    + now apply IH.
  - destruct (javascriptValue (value a)); simpl.
    + rewrite attrs_remove_first by assumption. now apply IH.
    + replace (pre ++ a :: rest) with ((pre ++ [a]) ++ rest) by now rewrite <- app_assoc.
      rewrite IH by now rewrite <- app_assoc. now rewrite <- app_assoc.
Qed.

Lemma sanitizeElement_onElement (el : NodeId) (doc : Document) :
  distinctById doc -> uniqueNames doc ->
  sanitizeElement el doc = onElement el keptByCode doc.
Proof.
  intros Hd Hu. unfold sanitizeElement. rewrite forEach_sanitizeAttribute.
  apply onElement_ext. intros e He <-.
  rewrite (attributes_of e Hd He).
  unfold uniqueNames in Hu. rewrite Forall_forall in Hu.
  exact (fold_attrStep (attrs e) [] (Hu e He)).
Qed.

Lemma distinctById_update (f : ElementData -> list Attr) (doc : Document) :
  distinctById doc -> distinctById (update f doc).
Proof.
  intros Hd e e' He He' Hid. rewrite elements_update in He, He'.
  apply in_map_iff in He as (a & <- & Ha), He' as (b & <- & Hb).
  simpl in Hid. now rewrite (Hd a b Ha Hb Hid).
Qed.

Lemma uniqueNames_onElement_kept (el : NodeId) (doc : Document) :
  uniqueNames doc -> uniqueNames (onElement el keptByCode doc).
Proof.
  unfold uniqueNames, onElement. rewrite elements_update, !Forall_forall.
  intros H e He. apply in_map_iff in He as (a & <- & Ha). simpl.
  destruct (hasId el a); [|now apply H].
  apply filter_keeps_distinct. now apply H.
Qed.

Lemma forEach_sanitizeElement (ids : list NodeId) (doc : Document) :
  distinctById doc -> uniqueNames doc ->
  forEach ids sanitizeElement doc
  = update (fun e => if anyId ids e then keptByCode (attrs e) else attrs e) doc.
Proof.
  unfold forEach. revert doc. induction ids as [|i ids IH]; intros doc Hd Hu; simpl.
  - now rewrite update_attrs.
  - rewrite (sanitizeElement_onElement i Hd Hu).
    rewrite IH by (try apply distinctById_update; try apply uniqueNames_onElement_kept; assumption).
    unfold onElement. rewrite update_update. apply update_ext. intros e _.
    unfold anyId, hasId. simpl.
    destruct (Nat.eqb (nodeId e) i); simpl; destruct (existsb _ ids); simpl;
      try reflexivity.
    apply filter_filter_same.
Qed.

Lemma anyId_all (doc : Document) (e : ElementData) :
  In e (elements doc) -> anyId (querySelectorAll UniversalSelector doc) e = true.
Proof.
  intros He. apply existsb_exists. exists (nodeId e). split.
  - apply in_map. apply filter_In. now split.
  - apply Nat.eqb_refl.
Qed.

(** What the three passes of the code amount to. *)
Lemma sanitizeSVGDocument_passes (doc : Document) :
  wellFormed doc ->
  sanitizeSVGDocument doc
  = update (fun e => keptByCode (attrs e)) (prune unsafeElement doc).
Proof.
  intros Hwf. pose proof (wellFormed_distinctById Hwf) as Hd. destruct Hwf as [_ Hu].
  unfold sanitizeSVGDocument.
  rewrite (remove_all_matching "script" Hd).
  rewrite (remove_all_matching "foreignObject") by now apply distinctById_prune.
  rewrite prune_prune. fold unsafeElement.
  change (fun e => String.eqb (localName e) "script" || String.eqb (localName e) "foreignObject")
    with unsafeElement.
  rewrite forEach_sanitizeElement
    by (try apply distinctById_prune; try apply uniqueNames_prune; assumption).
  apply update_ext. intros e He. now rewrite anyId_all.
Qed.

Lemma filter_all (A : Type) (p : A -> bool) (l : list A) :
  Forall (fun a => p a = true) l -> filter p l = l.
Proof.
  induction 1 as [|a l Ha _ IH]; simpl; [reflexivity|]. now rewrite Ha, IH.
Qed.

(** A document the two tests of the code find nothing in is left as it is. *)
Lemma sanitizeSVGDocument_nothing_to_remove (doc : Document) :
  wellFormed doc ->
  Forall (fun e => unsafeElement e = false /\
                   Forall (fun a => removedByCode a = false) (attrs e)) (elements doc) ->
  sanitizeSVGDocument doc = doc.
Proof.
  intros Hwf Hsafe. rewrite (sanitizeSVGDocument_passes Hwf).
  rewrite Forall_forall in Hsafe.
  assert (Hp : prune unsafeElement doc = doc).
  { rewrite <- (prune_none doc) at 2. apply prune_ext. intros e He. now apply Hsafe. }
  rewrite Hp. rewrite <- (update_attrs doc) at 2. apply update_ext.
  intros e He. apply filter_all. destruct (Hsafe e He) as [_ Ha].
  apply Forall_forall. intros a Hin. rewrite Forall_forall in Ha.
  now rewrite (Ha a Hin).
Qed.

End SanitizerFacts.



Section SanitizerTheorem.

Context {host : Host}.

Lemma is_o_asciiLower (c : ascii) : Ascii.eqb "o" (asciiLower c) = is_o c.
Proof. destruct c as [[] [] [] [] [] [] [] []]; reflexivity. Qed.

Lemma is_n_asciiLower (c : ascii) : Ascii.eqb "n" (asciiLower c) = is_n c.
Proof. destruct c as [[] [] [] [] [] [] [] []]; reflexivity. Qed.

(** The regular expression of the code is the test the specification words. *)
Lemma test_on_i_startsWithOn (s : string) : test_on_i s = startsWithOn s.
Proof.
  unfold startsWithOn.
  destruct s as [|c1 [|c2 r]]; cbn [test_on_i asciiLowerCase startsWith].
  - reflexivity.
  - now rewrite andb_false_r.
  - now rewrite is_o_asciiLower, is_n_asciiLower, andb_true_r.
Qed.

Lemma javascriptValue_javascriptUrl (v : string) :
  toLowerCase (trim "") = "" -> javascriptValue v = javascriptUrl v.
Proof.
  intros Hhost. unfold javascriptValue, javascriptUrl.
  destruct (String.eqb v "") eqn:E; [|reflexivity].
  apply String.eqb_eq in E. subst v. now rewrite Hhost.
Qed.

Lemma keptByCode_safeAttrs (l : list Attr) :
  toLowerCase (trim "") = "" -> keptByCode l = safeAttrs l.
Proof.
  intros Hhost. apply filter_ext. intros a. unfold removedByCode, unsafeAttr.
  now rewrite test_on_i_startsWithOn, javascriptValue_javascriptUrl.
Qed.

Lemma update_prune_cleanNode (n : Node) :
  map (updateNode (fun e => safeAttrs (attrs e))) (pruneNode unsafeElement n) = cleanNode n.
Proof.
  induction n as [e cs IH|k d] using Node_induction; simpl; [|reflexivity].
  destruct (unsafeElement e); simpl; [reflexivity|].
  do 2 f_equal. rewrite map_flat_map. now apply flat_map_ext_Forall.
Qed.

Lemma update_prune_sanitized (doc : Document) :
  update (fun e => safeAttrs (attrs e)) (prune unsafeElement doc) = sanitized doc.
Proof.
  unfold update, prune, sanitized. rewrite map_flat_map.
  apply flat_map_ext. apply update_prune_cleanNode.
Qed.

Lemma safeAttrs_safe (l : list Attr) : Forall (fun a => unsafeAttr a = false) (safeAttrs l).
Proof.
  apply Forall_forall. intros a Ha. apply filter_In in Ha as [_ Ha].
  now apply negb_true_iff in Ha.
Qed.

Lemma cleanNode_safe (n : Node) : safeDocument (cleanNode n).
Proof.
  unfold safeDocument, elements.
  induction n as [e cs IH|k d] using Node_induction; simpl; [|constructor].
  destruct (unsafeElement e) eqn:E; simpl; [constructor|].
  rewrite app_nil_r. constructor.
  - simpl. split; [exact E|apply safeAttrs_safe].
  - rewrite flat_map_flat_map. apply Forall_flat_map. exact IH.
Qed.

Lemma sanitized_safe (doc : Document) : safeDocument (sanitized doc).
Proof.
  unfold safeDocument, elements, sanitized. rewrite flat_map_flat_map.
  apply Forall_flat_map, Forall_forall. intros n _. apply cleanNode_safe.
Qed.

(** C1.  On a parsed document (element identities distinct, attribute
    names distinct within an element), and with a host whose trim and
    toLowerCase leave the empty string empty, sanitizeSVGDocument yields
    the document in which every script and foreignObject element, every
    attribute whose name starts with on (in any case) and every attribute
    whose trimmed, lower-cased value starts with javascript: are gone and
    every other node and attribute is as it was; so none of those is
    left in the result. *)
Theorem sanitizeSVGDocument_removes_exactly (doc : Document) :
  wellFormed doc ->
  toLowerCase (trim "") = "" ->
  sanitizeSVGDocument doc = sanitized doc /\ safeDocument (sanitizeSVGDocument doc).
Proof.
  intros Hwf Hhost.
  assert (E : sanitizeSVGDocument doc = sanitized doc).
  { rewrite (sanitizeSVGDocument_passes Hwf), <- update_prune_sanitized.
    apply update_ext. intros e _. now apply keptByCode_safeAttrs. }
  split; [exact E|]. rewrite E. apply sanitized_safe.
Qed.

End SanitizerTheorem.

Lemma unsafeDoc_wellFormed : wellFormed Scenario.unsafeDoc.
Proof. well_formed. Qed.

Lemma sizedDoc_wellFormed : wellFormed Scenario.sizedDoc.
Proof. well_formed. Qed.

Lemma imagesDoc_wellFormed : wellFormed Scenario.imagesDoc.
Proof. well_formed. Qed.

(** The sanitizer on [Scenario.unsafeDoc]. *)
Example sanitizeSVGDocument_on_unsafeDoc :
  @sanitizeSVGDocument Scenario.host Scenario.unsafeDoc
  = [Scenario.el 1 "svg" [Scenario.plain "width" "10"]
       [Scenario.el 3 "rect" [Scenario.plain "width" "10"; Scenario.plain "height" "10"] [];
        Scenario.el 4 "a" [Scenario.plain "id" "link"] [CharacterData TextNode "go"];
        CharacterData Comment "kept"]].
Proof. reflexivity. Qed.

Lemma sanitizeSVGDocument_removes_exactly_witness :
  @sanitizeSVGDocument Scenario.host Scenario.unsafeDoc = @sanitized Scenario.host Scenario.unsafeDoc
  /\ @safeDocument Scenario.host (@sanitizeSVGDocument Scenario.host Scenario.unsafeDoc).
Proof.
  apply (@sanitizeSVGDocument_removes_exactly Scenario.host Scenario.unsafeDoc).
  - exact unsafeDoc_wellFormed.
  - reflexivity.
Defined.

(** ** Numbers *)

Section NumberFacts.

Lemma Qle_bool_false (a b : Q) : Qle_bool a b = false -> b < a.
Proof.
  intros E. apply Qnot_le_lt. intros Hle. apply Qle_bool_iff in Hle. congruence.
Qed.

Lemma clamp_within (n : Number) :
  isNaN n = false -> within (1 # 10) 20 (JS.max (Fin (1 # 10)) (JS.min (Fin 20) n)).
Proof.
  destruct n as [|[|]|q]; simpl; intros Hn; try discriminate.
  - split; lra.
  - split; lra.
  - destruct (Qle_bool 20 q) eqn:E1; simpl.
    + split; lra.
    + apply Qle_bool_false in E1.
      destruct (Qle_bool (1 # 10) q) eqn:E2; simpl.
      * apply Qle_bool_iff in E2. split; lra.
      * split; lra.
Qed.

Lemma within_finite (lo hi : Q) (n : Number) :
  within lo hi n -> exists q, n = Fin q /\ lo <= q /\ q <= hi.
Proof. destruct n as [| |q]; simpl; try tauto. intros H. now exists q. Qed.

Lemma div_finite (a b : Q) : ~ b == 0 -> div (Fin a) (Fin b) = Fin (a / b).
Proof.
  intros Hb. unfold div, Qeqb0.
  destruct (Qeq_bool b 0) eqn:E; [|reflexivity].
  apply Qeq_bool_iff in E. contradiction.
Qed.

End NumberFacts.

Section ZoomFacts.

Context {host : Host}.

Lemma setScale_clamped (s : Number) (w : World) :
  zoomInvariant w -> isNaN s = false -> zoomInvariant (setScale s w).
Proof.
  intros (Hs & [Hmin Hmax] & Hp) Hn. unfold zoomInvariant, scaleClamped, boundsAtDefault.
  unfold setScale, applyTransform. cbn [scale minScale maxScale _pinchStart set_transform set_scale].
  rewrite Hmin, Hmax. repeat split; auto using clamp_within.
Qed.

Lemma onZoomInClick_clamped (w : World) : zoomInvariant w -> zoomInvariant (onZoomInClick w).
Proof.
  intros Hi. apply setScale_clamped; [exact Hi|].
  destruct Hi as (Hs & _). apply within_finite in Hs as (q & -> & _). reflexivity.
Qed.

Lemma onZoomOutClick_clamped (w : World) : zoomInvariant w -> zoomInvariant (onZoomOutClick w).
Proof.
  intros Hi. apply setScale_clamped; [exact Hi|].
  destruct Hi as (Hs & _). apply within_finite in Hs as (q & -> & _).
  rewrite div_finite; [reflexivity|]. intros H. discriminate H.
Qed.

Lemma onKeyDown_clamped (k : string) (w : World) : zoomInvariant w -> zoomInvariant (onKeyDown k w).
Proof.
  intros Hi. unfold onKeyDown.
  assert (Hi' : zoomInvariant
    (if String.eqb k "+" || String.eqb k "=" then setScale (mul (scale w) (Fin (12 # 10))) w else w)).
  { destruct (String.eqb k "+" || String.eqb k "="); [apply (onZoomInClick_clamped Hi)|exact Hi]. }
  destruct (String.eqb k "-"); [|exact Hi'].
  apply (onZoomOutClick_clamped Hi').
Qed.

Lemma onWheel_clamped (e : WheelEvent) (w : World) : zoomInvariant w -> zoomInvariant (onWheel e w).
Proof.
  intros (Hs & [Hmin Hmax] & Hp). unfold zoomInvariant, scaleClamped, boundsAtDefault.
  unfold onWheel, applyTransform.
  cbn [scale minScale maxScale _pinchStart set_transform set_scale set_tx set_ty].
  rewrite Hmin, Hmax. repeat split; auto.
  apply clamp_within. apply within_finite in Hs as (q & -> & _).
  destruct (gt (neg (Fin (deltaY e))) (Fin 0)); [reflexivity|].
  rewrite div_finite; [reflexivity|]. intros H. discriminate H.
Qed.

Lemma pan_clamped (p : Point) (w : World) : zoomInvariant w -> zoomInvariant (pan p w).
Proof.
  intros Hi. unfold pan. destruct (negb (isPanning w)); exact Hi.
Qed.

Lemma pinch_clamped (e : PointerEvent) (p0 p1 : Point) (w : World) :
  zoomInvariant w -> anchorUsable w -> zoomInvariant (pinch e p0 p1 w).
Proof.
  intros (Hs & [Hmin Hmax] & Hp) Hu. unfold pinch.
  destruct (_pinchStart w) as [start|] eqn:E.
  - unfold zoomInvariant, scaleClamped, boundsAtDefault, applyTransform.
    cbn [scale minScale maxScale _pinchStart set_transform set_scale set_tx set_ty].
    rewrite Hmin, Hmax, E. repeat split; auto.
    apply clamp_within.
    destruct (within_finite _ _ _ (Hp start eq_refl)) as (q & -> & _).
    rewrite div_finite by exact (Hu start E). reflexivity.
  - unfold zoomInvariant, scaleClamped, boundsAtDefault.
    cbn [scale minScale maxScale _pinchStart set_pinchStart].
    repeat split; auto. intros start [= <-]. exact Hs.
Qed.

Lemma onPointerMove_clamped (e : PointerEvent) (w : World) :
  zoomInvariant w -> anchorUsable w -> zoomInvariant (onPointerMove e w).
Proof.
  intros Hi Hu. unfold onPointerMove.
  destruct (negb (map_has (pointerId e) (pointers w))); [exact Hi|].
  set (w1 := set_pointers _ w).
  assert (Hi1 : zoomInvariant w1) by exact Hi.
  assert (Hu1 : anchorUsable w1) by exact Hu.
  destruct (map snd (pointers w1)) as [|p [|p1 [|p2 l]]]; auto using pan_clamped, pinch_clamped.
Qed.

Lemma dispatch_clamped (ev : ZoomEvent) (w : World) :
  zoomInvariant w -> anchorUsable w -> zoomInvariant (dispatch ev w).
Proof.
  intros Hi Hu. destruct ev; simpl;
    auto using onZoomInClick_clamped, onZoomOutClick_clamped, onKeyDown_clamped,
               onWheel_clamped, onPointerMove_clamped.
  - destruct Hi as (Hs & Hb & Hp). split; [exact Hs|]. split; [exact Hb|]. intros start [=].
  - destruct Hi as (Hs & Hb & Hp). split; [exact Hs|]. split; [exact Hb|]. intros start [=].
Qed.

(** The clamp holds along every run of zoom events whose pinch anchors
    are captured at a distance other than zero. *)
Theorem scale_clamped_along (evs : list ZoomEvent) (w : World) :
  zoomInvariant w -> anchorUsable w -> anchorsUsable evs w ->
  scaleClamped (dispatchAll evs w).
Proof.
  unfold dispatchAll. revert w. induction evs as [|ev evs IH]; intros w Hi Hu Hall; simpl.
  - apply Hi.
  - destruct Hall as [Hu' Hall]. apply IH; auto using dispatch_clamped.
Qed.

(** From the state the script starts in. *)
Theorem scale_clamped_from_start (evs : list ZoomEvent) :
  anchorsUsable evs initialWorld -> scaleClamped (dispatchAll evs initialWorld).
Proof.
  intros Hall. apply scale_clamped_along; [| |exact Hall].
  - split; [|split]; [split; discriminate|split; reflexivity|intros start [=]].
  - intros start [=].
Qed.

End ZoomFacts.

Lemma scale_clamped_from_start_witness :
  scaleClamped (@dispatchAll Scenario.host (Trace.panThenCapture ++ Trace.spread) initialWorld).
Proof.
  apply (@scale_clamped_from_start Scenario.host (Trace.panThenCapture ++ Trace.spread)).
  simpl. repeat split; intros start [= <-]; vm_compute; discriminate.
Defined.

Section AnchorFacts.

Context {host : Host}.

Lemma anchor_update_fixed_iff (o t a s s' : Q) :
  ~ s == 0 ->
  (o + (t + - (a * (s' + - s))) + s' * ((a + - o + - t) / s) == a
   <-> s' == s \/ o + t + a * (s - 1) == 0).
Proof.
  intros Hs.
  assert (E : o + (t + - (a * (s' + - s))) + s' * ((a + - o + - t) / s) - a
              == (s - s') * (o + t + a * (s - 1)) / s) by (field; exact Hs).
  split.
  - intros H.
    assert (Hz : (s - s') * (o + t + a * (s - 1)) == 0).
    { assert (H0 : (s - s') * (o + t + a * (s - 1)) / s == 0) by (rewrite <- E, H; ring).
      assert (H1 : (s - s') * (o + t + a * (s - 1)) == ((s - s') * (o + t + a * (s - 1)) / s) * s)
        by (field; exact Hs).
      rewrite H1, H0. ring. }
    apply Qmult_integral in Hz. destruct Hz as [Hz|Hz]; [left|right; exact Hz].
    lra.
  - intros [H|H].
    + assert (H0 : (s - s') * (o + t + a * (s - 1)) / s == 0) by (rewrite H; field; exact Hs).
      rewrite <- E in H0. lra.
    + assert (H0 : (s - s') * (o + t + a * (s - 1)) / s == 0) by (rewrite H; field; exact Hs).
      rewrite <- E in H0. lra.
Qed.

(** The wheel keeps the content under the cursor in place exactly when the
    scale does not change or the view satisfies [o + tx + a (s - 1) = 0]. *)
Theorem onWheel_keeps_anchor_iff (o : Q) (e : WheelEvent) (w : World) (s t : Q) :
  zoomInvariant w -> scale w = Fin s -> tx w = Fin t ->
  exists s', scale (onWheel e w) = Fin s' /\
    (same (surfaceX o (onWheel e w) (contentX o w (wheelX e - wheelRectLeft e)))
          (Fin (wheelX e - wheelRectLeft e))
     <-> s' == s \/ o + t + (wheelX e - wheelRectLeft e) * (s - 1) == 0).
Proof.
  intros Hi Hs Ht.
  destruct (onWheel_clamped e Hi) as (Hc & _).
  apply within_finite in Hc as (s' & Hs' & _). exists s'. split; [exact Hs'|].
  assert (Hs0 : ~ s == 0).
  { destruct Hi as (Hw & _). unfold scaleClamped in Hw. rewrite Hs in Hw. simpl in Hw. lra. }
  unfold surfaceX, contentX. rewrite Hs'.
  unfold onWheel, applyTransform in *.
  cbn [scale tx set_transform set_scale set_tx set_ty] in *.
  rewrite Hs' , Hs, Ht. cbn [sub add neg mul]. rewrite div_finite by exact Hs0.
  cbn [mul add same]. apply anchor_update_fixed_iff. exact Hs0.
Qed.

(** Anchor captured at distance 100 and scale 1, contacts now 200 apart:
    the scale becomes 2. *)
Theorem pinch_doubles_scale (e : PointerEvent) (p0 p1 : Point) (w : World) (start : PinchStart) :
  boundsAtDefault w -> _pinchStart w = Some start ->
  dist start == 100 -> same (pinchScale start) (Fin 1) ->
  hypot (x p1 - x p0) (y p1 - y p0) == 200 ->
  same (scale (pinch e p0 p1 w)) (Fin 2).
Proof.
  intros [Hmin Hmax] Hstart Hd Hs Hc. unfold pinch. rewrite Hstart.
  unfold applyTransform. cbn [scale set_transform set_scale]. rewrite Hmin, Hmax.
  destruct (pinchScale start) as [| |s]; simpl in Hs; try contradiction.
  rewrite div_finite by (rewrite Hd; discriminate).
  set (c := hypot _ _) in *. cbn [mul].
  assert (Hv : s * (c / dist start) == 2) by (rewrite Hs, Hc, Hd; reflexivity).
  unfold JS.min, JS.max. cbn [leb].
  destruct (Qle_bool 20 (s * (c / dist start))) eqn:E1.
  - apply Qle_bool_iff in E1. lra.
  - destruct (Qle_bool (1 # 10) (s * (c / dist start))) eqn:E2.
    + exact Hv.
    + apply Qle_bool_false in E2. lra.
Qed.

End AnchorFacts.

Lemma zoomedWorld_invariant : @zoomInvariant Trace.zoomedWorld.
Proof.
  split; [|split]; [split; discriminate|split; reflexivity|intros start [=]].
Qed.

Lemma onWheel_keeps_anchor_iff_witness :
  exists s', scale (@onWheel Scenario.host Trace.wheelAt10 Trace.zoomedWorld) = Fin s' /\
    (same (surfaceX 0 (@onWheel Scenario.host Trace.wheelAt10 Trace.zoomedWorld)
             (contentX 0 Trace.zoomedWorld (10 - 0)))
          (Fin (10 - 0))
     <-> s' == 12 # 10 \/ 0 + 0 + (10 - 0) * ((12 # 10) - 1) == 0).
Proof.
  apply (@onWheel_keeps_anchor_iff Scenario.host 0 Trace.wheelAt10 Trace.zoomedWorld (12 # 10) 0).
  - exact zoomedWorld_invariant.
  - reflexivity.
  - reflexivity.
Defined.

Lemma pinch_doubles_scale_witness :
  same (scale (@pinch Scenario.host (Trace.pe 2 200 100) (mkPoint 0 100) (mkPoint 200 100)
                 Trace.afterCapture))
       (Fin 2).
Proof.
  apply (@pinch_doubles_scale Scenario.host (Trace.pe 2 200 100) (mkPoint 0 100)
           (mkPoint 200 100) Trace.afterCapture
           (mkPinchStart 100 (Fin 1) (mkPoint (200 # 2) (200 # 2))));
    try reflexivity.
  split; reflexivity.
Defined.

(** ** The view *)

Section ViewFacts.

Context {host : Host}.

(** C10.  With no document loaded ([svgElement] is null) the fit operation
    returns at once: the whole state, so scale, tx, ty and the transform
    last applied, is what it was, whatever pan or zoom did before. *)
Theorem adjustFit_without_document (w : World) :
  svgElement w = None ->
  adjustFit w = w /\ onFitViewClick w = w.
Proof.
  intros Hnone. unfold onFitViewClick, adjustFit. now rewrite Hnone.
Qed.

End ViewFacts.

Lemma adjustFit_without_document_witness :
  svgElement Trace.zoomedWorld = None /\
  same (scale Trace.zoomedWorld) (Fin (12 # 10)) /\
  (@adjustFit Scenario.host Trace.zoomedWorld = Trace.zoomedWorld /\
   @onFitViewClick Scenario.host Trace.zoomedWorld = Trace.zoomedWorld).
Proof.
  split; [reflexivity|]. split; [vm_compute; reflexivity|].
  apply (@adjustFit_without_document Scenario.host Trace.zoomedWorld). reflexivity.
Defined.

(** C2, at a failing input.  After one click on zoom-in (scale 1.2,
    translate 0) the wheel turns towards zoom-in with the cursor at x = 10:
    the scale becomes 1.296 and tx becomes -0.96, so the content point that
    was under the cursor is now shown at x = 9.84 and no longer at x = 10.
    The update [tx - mx * (newScale - scale)] of the code is not the
    anchor-preserving one. *)
Lemma wheel_zoom_moves_anchor :
  let w0 := Trace.zoomedWorld in
  let w1 := @onWheel Scenario.host Trace.wheelAt10 w0 in
  same (scale w0) (Fin (12 # 10)) /\ same (tx w0) (Fin 0) /\
  same (scale w1) (Fin (1296 # 1000)) /\ same (tx w1) (Fin (- (96 # 100))) /\
  same (surfaceX 0 w0 (contentX 0 w0 10)) (Fin 10) /\
  same (surfaceX 0 w1 (contentX 0 w0 10)) (Fin (984 # 100)) /\
  ~ same (surfaceX 0 w1 (contentX 0 w0 10)) (Fin 10).
Proof. vm_compute. intuition discriminate. Qed.

(** C4, at a failing input.  Two contacts go down on the same point and
    one of them reports two moves without leaving it: the anchor is
    captured at distance 0, the ratio of the next move is 0 / 0, and the
    scale (with tx and ty) becomes NaN, which no clamp bounds; the zoom
    buttons leave it NaN. *)
Lemma degenerate_pinch_breaks_clamp :
  let w := @dispatchAll Scenario.host Trace.degenerate initialWorld in
  scale w = NaN /\ tx w = NaN /\ ty w = NaN /\
  scale (@dispatchAll Scenario.host [ZoomInClick; ZoomOutClick] w) = NaN /\
  ~ scaleClamped w.
Proof. vm_compute. intuition discriminate. Qed.

(** C5, at a failing input.  One contact pans the view by 50, a second
    contact lands 100 away, and the anchor is captured at distance 100,
    scale 1 and center x = 100.  The contacts then spread to distance 200
    about that center: the scale becomes 2, as the claim says, but the
    content point that was under the center is now shown at x = 50: the
    view is not anchored at the initial center.  (Its y, along which the
    view had not been moved, stays at 100.) *)
Lemma pinch_after_pan_moves_center :
  let w0 := Trace.afterCapture in
  let w1 := @dispatchAll Scenario.host Trace.spread w0 in
  option_map dist (_pinchStart w0) = Some 100 /\
  option_map pinchScale (_pinchStart w0) = Some (Fin 1) /\
  option_map center (_pinchStart w0) = Some (mkPoint (200 # 2) (200 # 2)) /\
  same (tx w0) (Fin 50) /\
  same (scale w1) (Fin 2) /\
  same (surfaceX 0 w0 (contentX 0 w0 100)) (Fin 100) /\
  same (surfaceX 0 w1 (contentX 0 w0 100)) (Fin 50) /\
  ~ same (surfaceX 0 w1 (contentX 0 w0 100)) (Fin 100) /\
  same (surfaceY 0 w1 (contentY 0 w0 100)) (Fin 100).
Proof. vm_compute. intuition discriminate. Qed.

(** ** Loading, rendering, exporting *)

Section LoaderFacts.

Context {host : Host}.


Lemma querySelector_none (sel : Selector) (doc : Document) :
  querySelector sel doc = None <-> existsb (matches sel) (elements doc) = false.
Proof.
  unfold querySelector, querySelectorAll.
  induction (elements doc) as [|e l IH]; simpl; [tauto|].
  destruct (matches sel e); simpl; [|exact IH].
  split; discriminate.
Qed.

(** parseSVGText by its own test. *)
Lemma parseSVGText_by_test (text : string) :
  (hasErrorNode (parseFromString text) = true
   <-> parseSVGText text = Throw (Error "解析失败:不是合法的 SVG"))
  /\ (hasErrorNode (parseFromString text) = false
      <-> parseSVGText text = Return (parseFromString text)).
Proof.
  unfold parseSVGText, hasErrorNode.
  pose proof (querySelector_none (TypeSelector "parsererror") (parseFromString text)) as Hq.
  unfold matches in Hq.
  destruct (querySelector (TypeSelector "parsererror") (parseFromString text)) as [n|].
  - destruct (existsb _ _).
    + split; split; intros; try reflexivity; discriminate.
    + destruct Hq as [_ Hq]. specialize (Hq eq_refl). discriminate.
  - destruct Hq as [Hq _]. rewrite (Hq eq_refl).
    split; split; intros; try reflexivity; discriminate.
Qed.

Lemma attrs_has_get (q : string) (l : list Attr) :
  attrs_has q l = false <-> attrs_get q l = None.
Proof.
  unfold attrs_has, attrs_get.
  induction l as [|a l IH]; simpl; [tauto|].
  destruct (String.eqb (name a) q); simpl; [|exact IH].
  split; discriminate.
Qed.

Lemma attrs_set_absent (q v : string) (l : list Attr) :
  attrs_has q l = false -> attrs_set q v l = l ++ [mkAttr None None q v].
Proof.
  unfold attrs_has. induction l as [|a l IH]; simpl; [reflexivity|].
  destruct (String.eqb (name a) q); simpl; [discriminate|].
  intros H. now rewrite IH.
Qed.

Lemma pageName_viewBox (e : ElementData) :
  nameInHTMLDocument e "viewBox" = viewBoxName e.
Proof. unfold nameInHTMLDocument, viewBoxName. now destruct (option_eqb _ _). Qed.

Lemma pageName_lower (e : ElementData) (q : string) :
  asciiLowerCase q = q -> nameInHTMLDocument e q = q.
Proof. unfold nameInHTMLDocument. intros ->. now destruct (option_eqb _ _). Qed.

(** The viewBox step of the code, on an element, in the words of
    [withViewBox]. *)
Lemma ensureViewBox_withViewBox (e : ElementData) (cs : list Node) :
  isNaN (parseFloat "") = true ->
  ensureViewBox (Element e cs) = Element (withAttrs e (withViewBox e)) cs.
Proof.
  intros Hempty.
  unfold ensureViewBox, withViewBox, readsAsNumber, hasAttributeOfNode, getAttributeOfNode.
  cbn [attributesOfNode pageName setAttributeOfNode].
  rewrite pageName_viewBox, !pageName_lower by reflexivity.
  destruct (attrs_has (viewBoxName e) (attrs e)) eqn:Hv; cbn [negb].
  - now rewrite withAttrs_attrs.
  - destruct (attrs_get "width" (attrs e)) as [ws|]; [|cbn; now rewrite withAttrs_attrs].
    destruct (attrs_get "height" (attrs e)) as [hs|]; [|cbn; now rewrite withAttrs_attrs].
    unfold truthy.
    destruct (String.eqb ws "") eqn:Ew.
    { apply String.eqb_eq in Ew. subst ws. rewrite Hempty. cbn. now rewrite withAttrs_attrs. }
    destruct (String.eqb hs "") eqn:Eh.
    { apply String.eqb_eq in Eh. subst hs. rewrite Hempty.
      destruct (negb (isNaN (parseFloat ws))); cbn; now rewrite withAttrs_attrs. }
    cbn [negb andb].
    destruct (negb (isNaN (parseFloat ws)) && negb (isNaN (parseFloat hs))).
    + now rewrite attrs_set_absent.
    + now rewrite withAttrs_attrs.
Qed.

Lemma renderSVGDocument_mounts (doc : Document) (root : Node) (w : World) :
  documentElement doc = Some root ->
  let w' := run (renderSVGDocument doc) w in
  svgContainer w' = [ensureViewBox root] /\
  svgElement w' = Some root /\
  sourceArea w' = serializeToString root /\
  statusText w' = "状态:已加载" /\
  downloads w' = downloads w.
Proof.
  intros Hroot. unfold renderSVGDocument, run, bind, modify, importNode, ret.
  rewrite Hroot. cbn. repeat split.
Qed.

(** C7, as amended.  Rendering a document whose root is the element [e]
    mounts a clone of the root whose attributes are [withViewBox e]: when
    the root has no viewBox attribute and parseFloat reads a number from
    its width and from its height (a numeral the value starts with is
    enough), the attribute viewBox, with the value 0 0 w h of the numbers
    read, is added after the others; when a viewBox is present, or width
    or height is missing, empty, or gives parseFloat no number, the
    attributes are the ones of [e].  On a root of the XHTML namespace the
    name looked for and written is viewbox.  The host reads no number
    from the empty string. *)
Theorem renderSVGDocument_viewBox (doc : Document) (e : ElementData) (cs : list Node) (w : World) :
  documentElement doc = Some (Element e cs) ->
  isNaN (parseFloat "") = true ->
  svgContainer (run (renderSVGDocument doc) w)
  = [Element (withAttrs e (withViewBox e)) cs].
Proof.
  intros Hroot Hempty.
  destruct (renderSVGDocument_mounts doc w Hroot) as (Hc & _).
  rewrite Hc. now rewrite ensureViewBox_withViewBox.
Qed.

End LoaderFacts.

(** ** What the parser reports, and what parseSVGText makes of it *)

Section ParserReport.

Context {host : Host}.

(** DOMParser does not say whether it accepted the text.  [wellFormedText]
    is that verdict; for a text it did not accept the parser answers a
    document that holds a parsererror element, and that element is all
    the script can look for. *)
Variable wellFormedText : string -> bool.

Hypothesis error_embedded :
  forall text, wellFormedText text = false -> holdsErrorElement (parseFromString text) = true.

Lemma existsb_flat_map (A B : Type) (f : B -> bool) (g : A -> list B) (l : list A) :
  existsb f (flat_map g l) = existsb (fun a => existsb f (g a)) l.
Proof.
  induction l as [|a l IH]; simpl; [reflexivity|]. now rewrite existsb_app, IH.
Qed.

Lemma existsb_ext_Forall (A : Type) (f g : A -> bool) (l : list A) :
  Forall (fun a => f a = g a) l -> existsb f l = existsb g l.
Proof. induction 1 as [|a l Ha _ IH]; simpl; [reflexivity|]. now rewrite Ha, IH. Qed.

Lemma holdsElementNamed_elementsOf (lname : string) (n : Node) :
  holdsElementNamed lname n
  = existsb (fun e => String.eqb (localName e) lname) (elementsOf n).
Proof.
  induction n as [e cs IH|k d] using Node_induction; [|reflexivity].
  cbn [holdsElementNamed elementsOf existsb]. f_equal.
  rewrite existsb_flat_map. now apply existsb_ext_Forall.
Qed.

Lemma holdsErrorElement_hasErrorNode (doc : Document) :
  holdsErrorElement doc = hasErrorNode doc.
Proof.
  unfold holdsErrorElement, hasErrorNode, elements. rewrite existsb_flat_map.
  apply existsb_ext_Forall, Forall_forall. intros n _. apply holdsElementNamed_elementsOf.
Qed.

(** C6, as amended.  parseSVGText throws the error of the script (its
    message says that the text is not a valid SVG) exactly when the
    document the XML parser answered holds an element named parsererror,
    anywhere in it, and returns that document exactly when it holds none.
    So it throws for every text the parser did not accept. *)
Theorem parseSVGText_fails_iff_parsererror_element (text : string) :
  (holdsErrorElement (parseFromString text) = true
   <-> parseSVGText text = Throw (Error "解析失败:不是合法的 SVG"))
  /\ (holdsErrorElement (parseFromString text) = false
      <-> parseSVGText text = Return (parseFromString text))
  /\ (wellFormedText text = false
      -> parseSVGText text = Throw (Error "解析失败:不是合法的 SVG")).
Proof.
  destruct (parseSVGText_by_test text) as [Hthrow Hreturn].
  rewrite <- holdsErrorElement_hasErrorNode in Hthrow, Hreturn.
  split; [exact Hthrow|]. split; [exact Hreturn|].
  intros Hbad. apply Hthrow. now apply error_embedded.
Qed.

End ParserReport.

Lemma parsererrorScenario_error_embedded (text : string) :
  ParsererrorScenario.wellFormedText text = false ->
  holdsErrorElement (@parseFromString ParsererrorScenario.host text) = true.
Proof.
  intros H. change (holdsErrorElement (ParsererrorScenario.parseFromString text) = true).
  unfold ParsererrorScenario.parseFromString. now rewrite H.
Qed.

Lemma parseSVGText_fails_iff_parsererror_element_witness :
  (holdsErrorElement (@parseFromString ParsererrorScenario.host "<svg") = true
   <-> @parseSVGText ParsererrorScenario.host "<svg" = Throw (Error "解析失败:不是合法的 SVG"))
  /\ (holdsErrorElement (@parseFromString ParsererrorScenario.host "<svg") = false
      <-> @parseSVGText ParsererrorScenario.host "<svg"
          = Return (@parseFromString ParsererrorScenario.host "<svg"))
  /\ (ParsererrorScenario.wellFormedText "<svg" = false
      -> @parseSVGText ParsererrorScenario.host "<svg" = Throw (Error "解析失败:不是合法的 SVG")).
Proof.
  exact (@parseSVGText_fails_iff_parsererror_element ParsererrorScenario.host
           ParsererrorScenario.wellFormedText parsererrorScenario_error_embedded "<svg").
Defined.

(** C6, as the claim has it, fails: the parser accepts this text and
    reports no error, the text is the markup of the document it answers,
    and parseSVGText throws all the same, for the element in it that is
    named parsererror. *)
Lemma parseSVGText_throws_on_well_formed_text :
  ParsererrorScenario.wellFormedText "<svg><parsererror/></svg>" = true
  /\ @parseFromString ParsererrorScenario.host "<svg><parsererror/></svg>"
     = [Scenario.el 1 "svg" [] [Scenario.el 2 "parsererror" [] []]]
  /\ option_map Scenario.serializeToString
       (documentElement (@parseFromString ParsererrorScenario.host "<svg><parsererror/></svg>"))
     = Some "<svg><parsererror/></svg>"
  /\ @parseSVGText ParsererrorScenario.host "<svg><parsererror/></svg>"
     = Throw (Error "解析失败:不是合法的 SVG").
Proof. vm_compute. repeat split. Qed.

Lemma renderSVGDocument_viewBox_witness :
  svgContainer (run (@renderSVGDocument Scenario.host Scenario.sizedDoc) initialWorld)
  = [Scenario.el 1 "svg"
       [Scenario.plain "width" "100"; Scenario.plain "height" "50";
        Scenario.plain "viewBox" "0 0 100 50"]
       [Scenario.el 2 "circle" [Scenario.plain "r" "5"] []]].
Proof.
  exact (@renderSVGDocument_viewBox Scenario.host Scenario.sizedDoc
           (mkElement 1%nat None None "svg"
              [Scenario.plain "width" "100"; Scenario.plain "height" "50"])
           [Scenario.el 2 "circle" [Scenario.plain "r" "5"] []]
           initialWorld eq_refl eq_refl).
Defined.

(** C7, as the claim has it, fails twice.  A width of 100px is no numeric
    value, yet the clone gets a viewBox, of width 100.  And a root of the
    XHTML namespace that has a viewBox does not keep its attributes: the
    clone gets a viewbox beside it. *)
Lemma renderSVGDocument_viewBox_not_as_claimed :
  decimalNumeral "100px" = false
  /\ svgContainer
       (run (@renderSVGDocument Scenario.host
               [Scenario.el 1 "svg"
                  [Scenario.plain "width" "100px"; Scenario.plain "height" "50"] []])
            initialWorld)
     = [Scenario.el 1 "svg"
          [Scenario.plain "width" "100px"; Scenario.plain "height" "50";
           Scenario.plain "viewBox" "0 0 100 50"] []]
  /\ svgContainer
       (run (@renderSVGDocument Scenario.host
               [Scenario.xhtml 1 "svg"
                  [Scenario.plain "viewBox" "0 0 1 1"; Scenario.plain "width" "100";
                   Scenario.plain "height" "50"] []])
            initialWorld)
     = [Scenario.xhtml 1 "svg"
          [Scenario.plain "viewBox" "0 0 1 1"; Scenario.plain "width" "100";
           Scenario.plain "height" "50"; Scenario.plain "viewbox" "0 0 100 50"] []].
Proof. vm_compute. repeat split. Qed.

(** The step on other roots: a width that gives parseFloat no number, a
    viewBox that is there already, and the numerals of the plain sense. *)
Example ensureViewBox_examples :
  attributesOfNode (@ensureViewBox Scenario.host
    (Scenario.el 1 "svg" [Scenario.plain "width" "100px"; Scenario.plain "height" "12.5"] []))
  = [Scenario.plain "width" "100px"; Scenario.plain "height" "12.5";
     Scenario.plain "viewBox" "0 0 100 12.5"]
  /\ attributesOfNode (@ensureViewBox Scenario.host
        (Scenario.el 1 "svg" [Scenario.plain "width" "auto"; Scenario.plain "height" "50"] []))
      = [Scenario.plain "width" "auto"; Scenario.plain "height" "50"]
  /\ attributesOfNode (@ensureViewBox Scenario.host
        (Scenario.el 1 "svg" [Scenario.plain "viewBox" "0 0 1 1"; Scenario.plain "width" "100";
                              Scenario.plain "height" "50"] []))
      = [Scenario.plain "viewBox" "0 0 1 1"; Scenario.plain "width" "100";
         Scenario.plain "height" "50"]
  /\ map decimalNumeral ["100"; "12.5"; "-3"; "1e3"; ""; "auto"; "100px"; "Infinity"]
     = [true; true; true; true; false; false; false; false].
Proof. vm_compute. repeat split. Qed.

(** The parser on the small host: a text it knows, and one it does not. *)
Example parseSVGText_examples :
  @parseSVGText Scenario.host Scenario.sizedText = Return Scenario.sizedDoc
  /\ @parseSVGText Scenario.host "<svg" = Throw (Error "解析失败:不是合法的 SVG").
Proof. vm_compute. split; reflexivity. Qed.

Section ExportFacts.

Context {host : Host}.

#[local] Arguments javascriptValue : simpl never.

Lemma loadText_renders (txt : string) (doc : Document) (root : Node) (w : World) :
  parseSVGText txt = Return doc ->
  documentElement (sanitizeSVGDocument doc) = Some root ->
  let w' := run (loadText txt) w in
  svgContainer w' = [ensureViewBox root] /\
  svgElement w' = Some root /\
  sourceArea w' = serializeToString root /\
  statusText w' = "状态:已加载" /\
  downloads w' = downloads w /\
  fst (loadText txt w) = Return tt.
Proof.
  intros Hparse Hroot. unfold loadText, run, bind, liftOutcome. rewrite Hparse.
  unfold renderSVGDocument, run, bind, modify, importNode, ret.
  rewrite Hroot. cbn. repeat split.
Qed.

(** Export serializes the root that was rendered from, which the viewBox
    step never touches. *)
Lemma onDownloadClick_exports (root : Node) (w : World) :
  svgElement w = Some root ->
  downloads (onDownloadClick w)
  = downloads w ++ [mkDownload "cleaned.svg" "image/svg+xml" (serializeToString root)].
Proof. intros H. unfold onDownloadClick. now rewrite H. Qed.


(** Whatever is loaded, the mounted node is the clone after the viewBox
    step, while the source area and the downloaded file are the
    serialization of the sanitized root itself. *)
Theorem export_serializes_sanitized_root
    (txt : string) (doc : Document) (root : Node) (w : World) :
  parseSVGText txt = Return doc ->
  documentElement (sanitizeSVGDocument doc) = Some root ->
  svgContainer (run (loadText txt) w) = [ensureViewBox root]
  /\ sourceArea (run (loadText txt) w) = serializeToString root
  /\ downloads (onDownloadClick (run (loadText txt) w))
     = downloads w ++ [mkDownload "cleaned.svg" "image/svg+xml" (serializeToString root)].
Proof.
  intros Hparse Hroot.
  destruct (@loadText_renders txt doc root w Hparse Hroot) as (Hc & He & Ha & _ & Hd & _).
  split; [exact Hc|]. split; [exact Ha|].
  now rewrite (onDownloadClick_exports _ He), Hd.
Qed.

(** C3, as the code has it.  On a host that parses the text to the
    expected tree and serializes it back, finds no javascript URL in its
    values and reads and prints 100 and 50 as such: after loading the text
    the mounted clone carries viewBox=0 0 100 50 after width and height,
    while the root kept for export carries width and height only; the
    source area and the downloaded file hold the text as it was loaded,
    without a viewBox. *)
Theorem load_sized_then_export (w0 : World) :
  parseFromString Scenario.sizedText = Scenario.sizedDoc ->
  serializeToString sizedRoot = Scenario.sizedText ->
  javascriptValue "100" = false -> javascriptValue "50" = false -> javascriptValue "5" = false ->
  parseFloat "100" = Fin 100 -> parseFloat "50" = Fin 50 ->
  numberToString (Fin 100) = "100" -> numberToString (Fin 50) = "50" ->
  let w := run (loadFromTextOrUrl Scenario.sizedText) w0 in
  map attributesOfNode (svgContainer w)
  = [[Scenario.plain "width" "100"; Scenario.plain "height" "50";
      Scenario.plain "viewBox" "0 0 100 50"]]
  /\ option_map attributesOfNode (svgElement w)
     = Some [Scenario.plain "width" "100"; Scenario.plain "height" "50"]
  /\ sourceArea w = Scenario.sizedText
  /\ downloads (onDownloadClick w)
     = downloads w0 ++ [mkDownload "cleaned.svg" "image/svg+xml" Scenario.sizedText].
Proof.
  intros Hparse Hser J100 J50 J5 P100 P50 N100 N50.
  assert (Hp : parseSVGText Scenario.sizedText = Return Scenario.sizedDoc).
  { unfold parseSVGText. rewrite Hparse. reflexivity. }
  assert (Hs : sanitizeSVGDocument Scenario.sizedDoc = Scenario.sizedDoc).
  { apply sanitizeSVGDocument_nothing_to_remove; [exact sizedDoc_wellFormed|].
    unfold removedByCode. cbn.
    repeat (apply Forall_cons; [split; [reflexivity|]|]); try apply Forall_nil;
      repeat (apply Forall_cons; [cbn; rewrite ?J100, ?J50, ?J5; reflexivity|]);
      apply Forall_nil. }
  assert (Hroot : documentElement (sanitizeSVGDocument Scenario.sizedDoc) = Some sizedRoot)
    by now rewrite Hs.
  assert (Hload : run (loadFromTextOrUrl Scenario.sizedText) w0
                  = run (loadText Scenario.sizedText) (setStatus "解析 SVG 文本..." w0)).
  { unfold loadFromTextOrUrl.
    replace (startsWith "<svg" Scenario.sizedText || includes "<svg" Scenario.sizedText)
      with true by reflexivity.
    unfold tryCatch, run, bind, modify.
    destruct (@loadText_renders Scenario.sizedText Scenario.sizedDoc sizedRoot
                (setStatus "解析 SVG 文本..." w0) Hp Hroot) as (_ & _ & _ & _ & _ & Hret).
    destruct (loadText Scenario.sizedText (setStatus "解析 SVG 文本..." w0)) as [o w'].
    simpl in Hret. subst o. reflexivity. }
  cbv zeta. rewrite Hload.
  destruct (@loadText_renders Scenario.sizedText Scenario.sizedDoc sizedRoot
                (setStatus "解析 SVG 文本..." w0) Hp Hroot)
    as (Hc & He & Ha & _ & Hd & _).
  rewrite Hc, He, Ha, Hser. repeat split.
  - unfold ensureViewBox, sizedRoot. cbn. rewrite P100, P50. cbn. rewrite N100, N50. reflexivity.
  - rewrite (onDownloadClick_exports _ He), Hd, Hser. reflexivity.
Qed.

End ExportFacts.

Lemma export_serializes_sanitized_root_witness :
  svgContainer (run (@loadText Scenario.host Scenario.sizedText) initialWorld)
  = [@ensureViewBox Scenario.host sizedRoot]
  /\ sourceArea (run (@loadText Scenario.host Scenario.sizedText) initialWorld)
     = Scenario.serializeToString sizedRoot
  /\ downloads (@onDownloadClick Scenario.host
                  (run (@loadText Scenario.host Scenario.sizedText) initialWorld))
     = downloads initialWorld
         ++ [mkDownload "cleaned.svg" "image/svg+xml" (Scenario.serializeToString sizedRoot)].
Proof.
  apply (@export_serializes_sanitized_root Scenario.host Scenario.sizedText Scenario.sizedDoc
           sizedRoot initialWorld); reflexivity.
Defined.

Lemma load_sized_then_export_witness :
  let w := run (@loadFromTextOrUrl Scenario.host Scenario.sizedText) initialWorld in
  map attributesOfNode (svgContainer w)
  = [[Scenario.plain "width" "100"; Scenario.plain "height" "50";
      Scenario.plain "viewBox" "0 0 100 50"]]
  /\ option_map attributesOfNode (svgElement w)
     = Some [Scenario.plain "width" "100"; Scenario.plain "height" "50"]
  /\ sourceArea w = Scenario.sizedText
  /\ downloads (@onDownloadClick Scenario.host w)
     = downloads initialWorld ++ [mkDownload "cleaned.svg" "image/svg+xml" Scenario.sizedText].
Proof.
  apply (@load_sized_then_export Scenario.host initialWorld); reflexivity.
Defined.

(** C3, as the claim has it, fails: after loading the text and clicking
    download, the file is the text that was loaded, its root has no
    viewBox attribute and the word viewBox does not occur in it; only the
    mounted clone has the attribute. *)
Lemma export_after_load_lacks_viewBox :
  let w := @onDownloadClick Scenario.host
             (run (@loadFromTextOrUrl Scenario.host Scenario.sizedText) initialWorld) in
  map content (downloads w) = [Scenario.sizedText]
  /\ option_map (fun n => attrs_get "viewBox" (attributesOfNode n)) (svgElement w) = Some None
  /\ map (includes "viewBox") (map content (downloads w)) = [false]
  /\ map (fun n => attrs_get "viewBox" (attributesOfNode n)) (svgContainer w) = [Some "0 0 100 50"].
Proof. vm_compute. repeat split. Qed.

(** ** The image inliner *)

Section InlinerFacts.

Context {host : Host}.

Lemma find_hasId_map (el : NodeId) (f : ElementData -> list Attr) (l : list ElementData) :
  find (hasId el) (map (fun e => withAttrs e (f e)) l)
  = option_map (fun e => withAttrs e (f e)) (find (hasId el) l).
Proof.
  induction l as [|e l IH]; simpl; [reflexivity|].
  unfold hasId at 1 3. simpl. destruct (Nat.eqb (nodeId e) el); [reflexivity|exact IH].
Qed.

Lemma attributes_onElement (el : NodeId) (g : list Attr -> list Attr) (doc : Document) :
  attributes el (onElement el g doc)
  = match find (hasId el) (elements doc) with
    | Some e => g (attrs e)
    | None => []
    end.
Proof.
  unfold attributes, onElement. rewrite elements_update, find_hasId_map.
  destruct (find (hasId el) (elements doc)) as [e|] eqn:F; simpl; [|reflexivity].
  apply find_some in F as [_ F]. now rewrite F.
Qed.

Lemma attrs_get_app_new (q v : string) (l : list Attr) :
  attrs_get q l = None -> attrs_get q (l ++ [mkAttr None None q v]) = Some v.
Proof.
  unfold attrs_get. induction l as [|a l IH]; simpl.
  - now rewrite String.eqb_refl.
  - destruct (String.eqb (name a) q); simpl; [discriminate|exact IH].
Qed.

Lemma attrs_getNS_app (ns : option string) (ln u : string) (l l' : list Attr) :
  attrs_getNS ns ln l = Some u -> attrs_getNS ns ln (l ++ l') = Some u.
Proof.
  unfold attrs_getNS. induction l as [|a l IH]; simpl; [discriminate|].
  destruct (option_eqb (attrNamespaceURI a) ns && String.eqb (attrLocalName a) ln); simpl;
    [tauto|exact IH].
Qed.

Lemma truthy_some (url : string) : url <> "" -> truthy (Some url) = true.
Proof.
  intros H. unfold truthy. destruct (String.eqb url "") eqn:E; [|reflexivity].
  apply String.eqb_eq in E. contradiction.
Qed.


(** C9.  An image with no plain href and an XLink href that is an address
    which is fetched and read with success: the step sets a plain href,
    appended after the attributes the image had, holding the data URI;
    the XLink href is still there and still holds the address. *)
Theorem inlineImage_keeps_xlink_href
    (img : NodeId) (s : Inlining) (url body dataUrl : string) (st : nat) :
  getAttribute img "href" (workingDoc s) = None ->
  getAttributeNS img xlinkNS "href" (workingDoc s) = Some url ->
  url <> "" ->
  startsWith "data:" url = false ->
  fetch (fetches s) url = Response true st body ->
  readAsDataURL body = Some dataUrl ->
  workingDoc (inlineImage img s) = setAttribute img "href" dataUrl (workingDoc s)
  /\ attributes img (workingDoc (inlineImage img s))
     = attributes img (workingDoc s) ++ [mkAttr None None "href" dataUrl]
  /\ getAttribute img "href" (workingDoc (inlineImage img s)) = Some dataUrl
  /\ getAttributeNS img xlinkNS "href" (workingDoc (inlineImage img s)) = Some url.
Proof.
  intros Hplain Hx Hn Hd Hf Hr.
  assert (Hh : imageHref img (workingDoc s) = Some url).
  { unfold imageHref, orElse. now rewrite Hplain. }
  assert (Hdoc : workingDoc (inlineImage img s) = setAttribute img "href" dataUrl (workingDoc s)).
  { unfold inlineImage. rewrite Hh, Hd, (truthy_some Hn). cbn [negb]. rewrite Hf. cbn [negb].
    now rewrite Hr. }
  assert (Ha : attributes img (workingDoc (inlineImage img s))
               = attributes img (workingDoc s) ++ [mkAttr None None "href" dataUrl]).
  { rewrite Hdoc. unfold setAttribute. rewrite attributes_onElement.
    unfold getAttribute, getAttributeNS, attributes in *.
    destruct (find (hasId img) (elements (workingDoc s))) as [e|]; [|discriminate].
    apply attrs_set_absent. now apply attrs_has_get. }
  split; [exact Hdoc|]. split; [exact Ha|].
  unfold getAttribute, getAttributeNS in *. rewrite Ha. split.
  - now apply attrs_get_app_new.
  - now apply attrs_getNS_app.
Qed.

End InlinerFacts.

Lemma inlineImage_keeps_xlink_href_witness :
  let s := mkInlining Scenario.imagesDoc [] 0 in
  let s' := @inlineImage Scenario.host 2%nat s in
  workingDoc s' = setAttribute 2%nat "href" "data:image/png;base64,iVBORw0KGgo=" (workingDoc s)
  /\ attributes 2%nat (workingDoc s')
     = attributes 2%nat (workingDoc s)
         ++ [mkAttr None None "href" "data:image/png;base64,iVBORw0KGgo="]
  /\ getAttribute 2%nat "href" (workingDoc s') = Some "data:image/png;base64,iVBORw0KGgo="
  /\ getAttributeNS 2%nat xlinkNS "href" (workingDoc s') = Some "http://example.org/a.png".
Proof.
  apply (@inlineImage_keeps_xlink_href Scenario.host 2%nat (mkInlining Scenario.imagesDoc [] 0)
           "http://example.org/a.png" "iVBORw0KGgo=" "data:image/png;base64,iVBORw0KGgo=" 200%nat);
    try reflexivity.
  discriminate.
Defined.

(** The whole button on the small host: the first image gains a plain
    href beside its XLink one; the others are as they were. *)
Example onInlineImgsClick_on_imagesDoc :
  let w0 := run (@renderSVGDocument Scenario.host Scenario.imagesDoc) initialWorld in
  let w := run (@onInlineImgsClick Scenario.host) w0 in
  option_map (fun root => map attrs (elementsOf root)) (svgElement w)
  = Some [[];
          [Scenario.xlink "href" "http://example.org/a.png"; Scenario.plain "width" "4";
           Scenario.plain "href" "data:image/png;base64,iVBORw0KGgo="];
          [Scenario.plain "href" "data:image/png;base64,AAAA"];
          [Scenario.plain "href" "http://example.org/missing.png"];
          [Scenario.plain "width" "4"]]
  /\ console w = ["无法内联 http://example.org/missing.png"].
Proof. vm_compute. split; reflexivity. Qed.

(** The button on a document without images: only the status line moves. *)
Example onInlineImgsClick_without_images :
  let w0 := run (@renderSVGDocument Scenario.host Scenario.sizedDoc) initialWorld in
  run (@onInlineImgsClick Scenario.host) w0 = @setStatus "没有 <image> 标记需要内联" w0.
Proof. vm_compute. reflexivity. Qed.

(* ================================================================== *)
(** * More of the script *)

(* ================================================================== *)
(** * Further properties of the script *)

(** ** The sanitizer, applied again *)

Section SanitizerAgain.

Context {host : Host}.

Lemma NoDup_flat_map_shrink (A B : Type) (f g : A -> list B) (l : list A) :
  (forall a x, In a l -> In x (g a) -> In x (f a)) ->
  (forall a, In a l -> NoDup (f a) -> NoDup (g a)) ->
  NoDup (flat_map f l) -> NoDup (flat_map g l).
Proof.
  induction l as [|a l IH]; simpl; intros Hin Hnd H; [constructor|].
  apply NoDup_app.
  - apply Hnd; [now left|]. exact (NoDup_app_remove_r _ _ H).
  - apply IH; [intros; apply Hin; auto|intros; apply Hnd; auto|].
    exact (NoDup_app_remove_l _ _ H).
  - intros x Hx Hx'. apply in_flat_map in Hx' as (b & Hb & Hx').
    assert (H1 : In x (f a)) by (apply Hin; auto).
    assert (H2 : In x (flat_map f l)) by (apply in_flat_map; exists b; split; auto).
    clear - H H1 H2. induction (f a) as [|y l0 IH0]; simpl in *; [tauto|].
    inversion H as [|? ? Hfresh Hrest]; subst. destruct H1 as [->|H1].
    + apply Hfresh. apply in_or_app. now right.
    + now apply IH0.
Qed.

Lemma ids_elements (doc : Document) : map nodeId (elements doc) = flat_map idsOf doc.
Proof. unfold elements, idsOf. apply map_flat_map. Qed.

Lemma ids_pruneNode_in (p : ElementData -> bool) (n : Node) (i : NodeId) :
  In i (flat_map idsOf (pruneNode p n)) -> In i (idsOf n).
Proof.
  rewrite <- ids_elements. unfold elements, idsOf. intros H.
  apply in_map_iff in H as (e & <- & He). apply in_map.
  now apply elementsOf_pruneNode in He.
Qed.

Lemma ids_pruneNode_distinct (p : ElementData -> bool) (n : Node) :
  NoDup (idsOf n) -> NoDup (flat_map idsOf (pruneNode p n)).
Proof.
  induction n as [e cs IH|k d] using Node_induction; [|constructor].
  cbn [pruneNode]. destruct (p e); [constructor|].
  cbn [flat_map]. rewrite app_nil_r. unfold idsOf at 1 2. cbn [elementsOf map].
  rewrite !map_flat_map. fold idsOf.
  intros H. inversion H as [|? ? Hnotin Hcs]; subst.
  rewrite flat_map_flat_map. constructor.
  - intros Hin. apply Hnotin.
    apply in_flat_map in Hin as (c & Hc & Hin).
    apply in_flat_map. exists c. split; [exact Hc|]. now apply ids_pruneNode_in in Hin.
  - apply NoDup_flat_map_shrink with (f := idsOf); [| |exact Hcs].
    + intros c i _. apply ids_pruneNode_in.
    + intros c Hc. rewrite Forall_forall in IH. now apply IH.
Qed.

Lemma wellFormed_prune (p : ElementData -> bool) (doc : Document) :
  wellFormed doc -> wellFormed (prune p doc).
Proof.
  intros [Hid Hnames]. split.
  - rewrite ids_elements in *. unfold prune. rewrite flat_map_flat_map.
    apply NoDup_flat_map_shrink with (f := idsOf); [| |exact Hid].
    + intros c i _. apply ids_pruneNode_in.
    + intros c _. apply ids_pruneNode_distinct.
  - now apply uniqueNames_prune.
Qed.

Lemma wellFormed_update_kept (doc : Document) :
  wellFormed doc -> wellFormed (update (fun e => keptByCode (attrs e)) doc).
Proof.
  intros [Hid Hnames]. split.
  - rewrite elements_update, map_map. simpl. exact Hid.
  - rewrite elements_update. rewrite Forall_forall in *. intros e He.
    apply in_map_iff in He as (a & <- & Ha). simpl.
    apply filter_keeps_distinct. now apply Hnames.
Qed.

Lemma sanitized_by_code (doc : Document) :
  Forall (fun e => unsafeElement e = false /\
                   Forall (fun a => removedByCode a = false) (attrs e))
         (elements (update (fun e => keptByCode (attrs e)) (prune unsafeElement doc))).
Proof.
  rewrite elements_update. apply Forall_forall. intros e He.
  apply in_map_iff in He as (a & <- & Ha). apply elements_prune in Ha as [_ Ha].
  split; [exact Ha|]. simpl. apply Forall_forall. intros b Hb.
  apply filter_In in Hb as [_ Hb]. now apply negb_true_iff in Hb.
Qed.

(** Sanitizing a parsed document gives a document that is as well formed,
    and sanitizing that one again changes nothing. *)
Theorem sanitizeSVGDocument_idempotent (doc : Document) :
  wellFormed doc ->
  wellFormed (sanitizeSVGDocument doc)
  /\ sanitizeSVGDocument (sanitizeSVGDocument doc) = sanitizeSVGDocument doc.
Proof.
  intros Hwf.
  assert (Hwf' : wellFormed (sanitizeSVGDocument doc)).
  { rewrite (sanitizeSVGDocument_passes Hwf).
    now apply wellFormed_update_kept, wellFormed_prune. }
  split; [exact Hwf'|].
  apply sanitizeSVGDocument_nothing_to_remove; [exact Hwf'|].
  rewrite (sanitizeSVGDocument_passes Hwf). apply sanitized_by_code.
Qed.

Lemma unsafeAttr_removedByCode (a : Attr) : unsafeAttr a = false -> removedByCode a = false.
Proof.
  unfold unsafeAttr, removedByCode, javascriptValue, javascriptUrl.
  rewrite test_on_i_startsWithOn. intros H. apply orb_false_iff in H as [-> H].
  rewrite H. now rewrite andb_false_r.
Qed.

(** A parsed document with no script or foreignObject element, no
    attribute whose name starts with on and no javascript: value comes out
    of the sanitizer as it went in. *)
Theorem sanitizeSVGDocument_keeps_safe (doc : Document) :
  wellFormed doc -> safeDocument doc -> sanitizeSVGDocument doc = doc.
Proof.
  intros Hwf Hsafe. apply sanitizeSVGDocument_nothing_to_remove; [exact Hwf|].
  unfold safeDocument in Hsafe. rewrite Forall_forall in *. intros e He.
  destruct (Hsafe e He) as [H1 H2]. split; [exact H1|].
  rewrite Forall_forall in *. intros a Ha. now apply unsafeAttr_removedByCode, H2.
Qed.

End SanitizerAgain.

Lemma sanitizeSVGDocument_idempotent_witness :
  wellFormed (@sanitizeSVGDocument Scenario.host Scenario.unsafeDoc)
  /\ @sanitizeSVGDocument Scenario.host (@sanitizeSVGDocument Scenario.host Scenario.unsafeDoc)
     = @sanitizeSVGDocument Scenario.host Scenario.unsafeDoc.
Proof.
  apply (@sanitizeSVGDocument_idempotent Scenario.host Scenario.unsafeDoc).
  exact unsafeDoc_wellFormed.
Defined.

Lemma sizedDoc_safe : @safeDocument Scenario.host Scenario.sizedDoc.
Proof.
  unfold safeDocument. simpl.
  repeat (apply Forall_cons; [split; [reflexivity|repeat constructor]|]). apply Forall_nil.
Qed.

Lemma sanitizeSVGDocument_keeps_safe_witness :
  @sanitizeSVGDocument Scenario.host Scenario.sizedDoc = Scenario.sizedDoc.
Proof.
  apply (@sanitizeSVGDocument_keeps_safe Scenario.host Scenario.sizedDoc).
  - exact sizedDoc_wellFormed.
  - exact sizedDoc_safe.
Defined.

(** ** Loading: what failure leaves behind *)

Section LoadingFailures.

Context {host : Host}.

Lemma parseSVGText_error (txt : string) :
  hasErrorNode (parseFromString txt) = true ->
  parseSVGText txt = Throw (Error "解析失败:不是合法的 SVG").
Proof.
  unfold parseSVGText, hasErrorNode. intros H.
  pose proof (querySelector_none (TypeSelector "parsererror") (parseFromString txt)) as Hq.
  unfold matches in Hq.
  destruct (querySelector (TypeSelector "parsererror") (parseFromString txt)); [reflexivity|].
  destruct Hq as [Hq _]. rewrite (Hq eq_refl) in H. discriminate.
Qed.

(** A text the parser reports an error for changes the status line and
    nothing else, whichever way it comes in: as a file, as pasted or
    dropped markup, or from the source area. *)
Theorem parse_failure_only_sets_status (txt : string) (w : World) :
  hasErrorNode (parseFromString txt) = true ->
  run (onFileText txt) w = setStatus "加载失败:解析失败:不是合法的 SVG" w
  /\ (startsWith "<svg" txt || includes "<svg" txt = true ->
      run (loadFromTextOrUrl txt) w = setStatus "解析失败:解析失败:不是合法的 SVG" w)
  /\ (trim (sourceArea w) = txt -> txt <> "" ->
      run onLoadSourceClick w = setStatus "载入失败:解析失败:不是合法的 SVG" w).
Proof.
  intros Herr. pose proof (parseSVGText_error txt Herr) as Hp.
  split; [|split].
  - unfold onFileText, loadText, run, tryCatch, bind, modify, liftOutcome.
    rewrite Hp. reflexivity.
  - intros Hm. unfold loadFromTextOrUrl. rewrite Hm.
    unfold loadText, run, tryCatch, bind, modify, liftOutcome. rewrite Hp. reflexivity.
  - intros Hsrc Hne. unfold onLoadSourceClick, run. rewrite Hsrc.
    destruct (String.eqb txt "") eqn:E; [apply String.eqb_eq in E; contradiction|].
    unfold loadText, tryCatch, bind, modify, liftOutcome. rewrite Hp. reflexivity.
Qed.

(** A document left without root element (its root was a script or a
    foreignObject) fails to render after the state is reset: no document
    is current, the display is empty and the view is the identity, while
    the source area, the transform style and the placeholder still are
    what the previous document left. *)
Theorem rootless_document_clears_view (txt : string) (doc : Document) (w : World) :
  parseSVGText txt = Return doc ->
  documentElement (sanitizeSVGDocument doc) = None ->
  svgElement (run (onFileText txt) w) = None
  /\ svgContainer (run (onFileText txt) w) = []
  /\ identityView (run (onFileText txt) w)
  /\ statusText (run (onFileText txt) w) = ("状态:加载失败:" ++ importNodeNullMessage)%string
  /\ sourceArea (run (onFileText txt) w) = sourceArea w
  /\ transform (run (onFileText txt) w) = transform w
  /\ placeholderDisplay (run (onFileText txt) w) = placeholderDisplay w.
Proof.
  intros Hp Hroot.
  unfold onFileText, loadText, run, tryCatch, bind, modify, liftOutcome. rewrite Hp.
  unfold renderSVGDocument, bind, modify, importNode, throw. rewrite Hroot. cbn.
  repeat split.
Qed.

(** An address that cannot be fetched, or that answers with a status that
    is not OK, changes the status line and nothing else. *)
Theorem fetch_failure_only_sets_status (input : string) (w : World) :
  startsWith "<svg" input || includes "<svg" input = false ->
  (forall m, fetch 0 input = NetworkError m ->
     run (loadFromTextOrUrl input) w = setStatus ("URL 加载失败:" ++ m) w)
  /\ (forall st body, fetch 0 input = Response false st body ->
        run (loadFromTextOrUrl input) w
        = setStatus ("URL 加载失败:网络错误 "
                       ++ numberToString (Fin (inject_Z (Z.of_nat st)))) w).
Proof.
  intros Hm. unfold loadFromTextOrUrl. rewrite Hm. split.
  - intros m Hf. unfold run, tryCatch, bind, modify. rewrite Hf. reflexivity.
  - intros st body Hf. unfold run, tryCatch, bind, modify. rewrite Hf. reflexivity.
Qed.

(** A render that succeeds puts the view back to the identity and applies
    it, whatever the view was; the contacts that are down, the pan flag and
    the pinch anchor are not reset. *)
Theorem renderSVGDocument_resets_view (doc : Document) (root : Node) (w : World) :
  documentElement doc = Some root ->
  identityView (run (renderSVGDocument doc) w)
  /\ transform (run (renderSVGDocument doc) w)
     = transformText (set_scale (Fin 1) (set_ty (Fin 0) (set_tx (Fin 0) w)))
  /\ pointers (run (renderSVGDocument doc) w) = pointers w
  /\ isPanning (run (renderSVGDocument doc) w) = isPanning w
  /\ _pinchStart (run (renderSVGDocument doc) w) = _pinchStart w
  /\ lastX (run (renderSVGDocument doc) w) = lastX w
  /\ lastY (run (renderSVGDocument doc) w) = lastY w.
Proof.
  intros Hroot. unfold renderSVGDocument, run, bind, modify, importNode, ret.
  rewrite Hroot. cbn. repeat split.
Qed.

Lemma attrs_has_app_new (q v : string) (l : list Attr) :
  attrs_has q (l ++ [mkAttr None None q v]) = true.
Proof.
  unfold attrs_has. rewrite existsb_app. simpl. now rewrite String.eqb_refl, orb_true_r.
Qed.

Lemma ensureViewBox_cases (e : ElementData) (cs : list Node) :
  ensureViewBox (Element e cs) = Element e cs
  \/ exists v,
       attrs_has (viewBoxName e) (attrs e) = false
       /\ ensureViewBox (Element e cs)
          = Element (withAttrs e (attrs e ++ [mkAttr None None (viewBoxName e) v])) cs.
Proof.
  unfold ensureViewBox, hasAttributeOfNode, getAttributeOfNode.
  cbn [attributesOfNode pageName setAttributeOfNode]. rewrite pageName_viewBox.
  destruct (attrs_has (viewBoxName e) (attrs e)) eqn:Hv; cbn [negb]; [now left|].
  destruct (attrs_get _ (attrs e)) as [ws|]; [|now left].
  destruct (attrs_get _ (attrs e)) as [hs|]; [|now left].
  destruct (truthy (Some ws) && truthy (Some hs)); [|now left].
  destruct (negb (isNaN (parseFloat ws)) && negb (isNaN (parseFloat hs))); [|now left].
  right. eexists. split; [reflexivity|].
  now rewrite attrs_set_absent by exact Hv.
Qed.

(** The viewBox step only ever appends: the attributes of the root come
    first and unchanged, followed by at most one attribute, named viewBox
    (viewbox on a root of the XHTML namespace); the rest of the tree is
    untouched, and the step applied twice is the step applied once. *)
Theorem ensureViewBox_appends_once (e : ElementData) (cs : list Node) :
  (exists extra, attributesOfNode (ensureViewBox (Element e cs)) = attrs e ++ extra
                 /\ (List.length extra <= 1)%nat
                 /\ Forall (fun a => name a = viewBoxName e) extra)
  /\ skeleton [ensureViewBox (Element e cs)] = skeleton [Element e cs]
  /\ ensureViewBox (ensureViewBox (Element e cs)) = ensureViewBox (Element e cs).
Proof.
  destruct (ensureViewBox_cases e cs) as [H|(v & Hv & H)]; rewrite H.
  - split; [exists []; cbn [attributesOfNode]; rewrite app_nil_r; repeat split; auto|].
    split; [reflexivity|exact H].
  - split; [|split].
    + eexists. split; [reflexivity|]. split; [simpl; lia|]. repeat constructor.
    + reflexivity.
    + unfold ensureViewBox, hasAttributeOfNode.
      cbn [attributesOfNode pageName attrs withAttrs]. rewrite pageName_viewBox.
      change (viewBoxName (withAttrs e (attrs e ++ [mkAttr None None (viewBoxName e) v])))
        with (viewBoxName e).
      now rewrite attrs_has_app_new.
Qed.

End LoadingFailures.

Lemma parse_failure_only_sets_status_witness :
  let w := set_sourceArea " <svg " initialWorld in
  run (@onFileText Scenario.host "<svg") w = setStatus "加载失败:解析失败:不是合法的 SVG" w
  /\ (startsWith "<svg" "<svg" || includes "<svg" "<svg" = true ->
      run (@loadFromTextOrUrl Scenario.host "<svg") w
      = setStatus "解析失败:解析失败:不是合法的 SVG" w)
  /\ (Scenario.trim (sourceArea w) = "<svg" -> "<svg" <> "" ->
      run (@onLoadSourceClick Scenario.host) w = setStatus "载入失败:解析失败:不是合法的 SVG" w).
Proof.
  apply (@parse_failure_only_sets_status Scenario.host "<svg"
           (set_sourceArea " <svg " initialWorld)).
  reflexivity.
Defined.

Lemma rootless_document_clears_view_witness :
  let w := run (@renderSVGDocument Scenario.host Scenario.sizedDoc) initialWorld in
  let w' := run (@onFileText RootlessScenario.host "<script/>") w in
  svgElement w' = None
  /\ svgContainer w' = []
  /\ identityView w'
  /\ statusText w' = "状态:加载失败:parameter 1 is not of type 'Node'."
  /\ sourceArea w' = Scenario.sizedText
  /\ transform w' = "translate(0px, 0px) scale(1)"
  /\ placeholderDisplay w' = "none".
Proof.
  exact (@rootless_document_clears_view RootlessScenario.host "<script/>"
           RootlessScenario.scriptDoc
           (run (@renderSVGDocument Scenario.host Scenario.sizedDoc) initialWorld)
           eq_refl eq_refl).
Defined.

Lemma fetch_failure_only_sets_status_witness :
  (forall m, Scenario.fetch 0 "http://example.org/missing.png" = NetworkError m ->
     run (@loadFromTextOrUrl Scenario.host "http://example.org/missing.png") initialWorld
     = setStatus ("URL 加载失败:" ++ m) initialWorld)
  /\ (forall st body, Scenario.fetch 0 "http://example.org/missing.png" = Response false st body ->
        run (@loadFromTextOrUrl Scenario.host "http://example.org/missing.png") initialWorld
        = setStatus ("URL 加载失败:网络错误 "
                       ++ Scenario.numberToString (Fin (inject_Z (Z.of_nat st)))) initialWorld).
Proof.
  apply (@fetch_failure_only_sets_status Scenario.host "http://example.org/missing.png"
           initialWorld).
  reflexivity.
Defined.

Lemma renderSVGDocument_resets_view_witness :
  let w := @dispatchAll Scenario.host Trace.spread Trace.afterCapture in
  let w' := run (@renderSVGDocument Scenario.host Scenario.sizedDoc) w in
  identityView w'
  /\ transform w' = "translate(0px, 0px) scale(1)"
  /\ pointers w' = pointers w
  /\ isPanning w' = true
  /\ _pinchStart w' = _pinchStart w
  /\ lastX w' = lastX w
  /\ lastY w' = lastY w.
Proof.
  exact (@renderSVGDocument_resets_view Scenario.host Scenario.sizedDoc sizedRoot
           (@dispatchAll Scenario.host Trace.spread Trace.afterCapture) eq_refl).
Defined.

(** The two failures of a fetch on the small host. *)
Example loadFromTextOrUrl_failures :
  statusText (run (@loadFromTextOrUrl Scenario.host "http://example.org/missing.png")
                initialWorld)
  = "状态:URL 加载失败:网络错误 404"
  /\ statusText (run (@loadFromTextOrUrl Scenario.host "nowhere") initialWorld)
     = "状态:URL 加载失败:Failed to fetch".
Proof. vm_compute. split; reflexivity. Qed.

(** ** Zoom buttons and wheel *)

Section ZoomAgain.

Context {host : Host}.

Lemma clamp_finite (lo hi q : Q) :
  lo <= hi ->
  exists r, JS.max (Fin lo) (JS.min (Fin hi) (Fin q)) = Fin r
    /\ lo <= r /\ r <= hi
    /\ (lo <= q -> q <= hi -> r == q)
    /\ (q <= lo -> r == lo)
    /\ (hi <= q -> r == hi).
Proof.
  intros Hlh. unfold JS.max, JS.min. cbn [leb].
  destruct (Qle_bool hi q) eqn:E1.
  - apply Qle_bool_iff in E1. cbn [leb].
    destruct (Qle_bool lo hi) eqn:E2.
    + exists hi. repeat split; try lra; try reflexivity.
    + apply Qle_bool_false in E2. lra.
  - apply Qle_bool_false in E1. cbn [leb].
    destruct (Qle_bool lo q) eqn:E2.
    + apply Qle_bool_iff in E2. exists q. repeat split; try lra; try reflexivity.
    + apply Qle_bool_false in E2. exists lo. repeat split; try lra; try reflexivity.
Qed.

Lemma scale_onZoomInClick (w : World) (s : Q) :
  boundsAtDefault w -> scale w = Fin s ->
  scale (onZoomInClick w) = JS.max (Fin (1 # 10)) (JS.min (Fin 20) (Fin (s * (12 # 10)))).
Proof.
  intros [Hmin Hmax] Hs. unfold onZoomInClick, setScale, applyTransform.
  cbn [scale set_transform set_scale]. now rewrite Hmin, Hmax, Hs.
Qed.

Lemma scale_onZoomOutClick (w : World) (s : Q) :
  boundsAtDefault w -> scale w = Fin s ->
  scale (onZoomOutClick w) = JS.max (Fin (1 # 10)) (JS.min (Fin 20) (Fin (s / (12 # 10)))).
Proof.
  intros [Hmin Hmax] Hs. unfold onZoomOutClick, setScale, applyTransform.
  cbn [scale set_transform set_scale]. rewrite Hmin, Hmax, Hs.
  rewrite div_finite; [reflexivity|]. intros H. discriminate H.
Qed.

(** The zoom buttons change the scale and nothing else of the view: zoom-in
    gives the scale times 1.2, or 20 when that is beyond; zoom-out gives
    the scale divided by 1.2, or 0.1 when that is below; zoom-in never
    lowers the scale and zoom-out never raises it; neither translates. *)
Theorem zoom_buttons_scale_only (w : World) (s : Q) :
  zoomInvariant w -> scale w = Fin s ->
  exists up down,
    scale (onZoomInClick w) = Fin up /\ scale (onZoomOutClick w) = Fin down
    /\ s <= up /\ up <= 20 /\ (1 # 10) <= down /\ down <= s
    /\ (s * (12 # 10) <= 20 -> up == s * (12 # 10))
    /\ (20 <= s * (12 # 10) -> up == 20)
    /\ ((1 # 10) <= s / (12 # 10) -> down == s / (12 # 10))
    /\ (s / (12 # 10) <= (1 # 10) -> down == (1 # 10))
    /\ tx (onZoomInClick w) = tx w /\ ty (onZoomInClick w) = ty w
    /\ tx (onZoomOutClick w) = tx w /\ ty (onZoomOutClick w) = ty w.
Proof.
  intros Hi Hs.
  assert (Hrange : (1 # 10) <= s /\ s <= 20).
  { destruct Hi as (Hc & _). unfold scaleClamped in Hc. now rewrite Hs in Hc. }
  destruct Hi as (_ & Hb & _).
  assert (H01 : (1 # 10) <= 20) by lra.
  pose proof (scale_onZoomInClick Hb Hs) as Hin.
  pose proof (scale_onZoomOutClick Hb Hs) as Hout.
  destruct (clamp_finite (s * (12 # 10)) H01) as (r1 & E1 & L1 & U1 & M1 & Lo1 & Hi1).
  destruct (clamp_finite (s / (12 # 10)) H01) as (r2 & E2 & L2 & U2 & M2 & Lo2 & Hi2).
  rewrite E1 in Hin. rewrite E2 in Hout.
  assert (Hdown : s / (12 # 10) <= s) by (apply Qle_shift_div_r; lra).
  exists r1, r2. split; [exact Hin|]. split; [exact Hout|].
  split; [|split; [exact U1|split; [exact L2|split; [|split; [|split; [|split; [|split]]]]]]].
  - destruct (Qlt_le_dec 20 (s * (12 # 10))) as [Hlt|Hge].
    + rewrite Hi1 by lra. lra.
    + rewrite M1; lra.
  - destruct (Qlt_le_dec (s / (12 # 10)) (1 # 10)) as [Hlt|Hge].
    + rewrite Lo2 by lra. lra.
    + rewrite M2; lra.
  - intros Hle. apply M1; lra.
  - exact Hi1.
  - intros Hge. apply M2; lra.
  - exact Lo2.
  - repeat split.
Qed.


End ZoomAgain.

Lemma zoom_buttons_scale_only_witness :
  exists up down,
    scale (@onZoomInClick Scenario.host initialWorld) = Fin up
    /\ scale (@onZoomOutClick Scenario.host initialWorld) = Fin down
    /\ 1 <= up /\ up <= 20 /\ (1 # 10) <= down /\ down <= 1
    /\ (1 * (12 # 10) <= 20 -> up == 1 * (12 # 10))
    /\ (20 <= 1 * (12 # 10) -> up == 20)
    /\ ((1 # 10) <= 1 / (12 # 10) -> down == 1 / (12 # 10))
    /\ (1 / (12 # 10) <= (1 # 10) -> down == (1 # 10))
    /\ tx (@onZoomInClick Scenario.host initialWorld) = tx initialWorld
    /\ ty (@onZoomInClick Scenario.host initialWorld) = ty initialWorld
    /\ tx (@onZoomOutClick Scenario.host initialWorld) = tx initialWorld
    /\ ty (@onZoomOutClick Scenario.host initialWorld) = ty initialWorld.
Proof.
  apply (@zoom_buttons_scale_only Scenario.host initialWorld 1).
  - split; [|split]; [split; discriminate|split; reflexivity|intros start [=]].
  - reflexivity.
Defined.


(** ** Contacts: pan, pinch and the map of pointers *)

Section Contacts.

Context {host : Host}.

Lemma map_set_only (k : Z) (v p : Point) : map_set k v [(k, p)] = [(k, v)].
Proof. simpl. now rewrite Z.eqb_refl. Qed.

(** With one contact down and the pan under way, a move of the contact
    translates the view by its displacement and leaves the scale: the
    content that was under the contact is under it still. *)
Theorem pan_follows_contact (o : Q) (e : PointerEvent) (w : World) (p : Point) (s t u : Q) :
  pointers w = [(pointerId e, p)] -> isPanning w = true ->
  scale w = Fin s -> ~ s == 0 -> tx w = Fin t -> ty w = Fin u ->
  scale (onPointerMove e w) = Fin s
  /\ same (tx (onPointerMove e w)) (Fin (t + (clientX e - lastX w)))
  /\ same (ty (onPointerMove e w)) (Fin (u + (clientY e - lastY w)))
  /\ same (surfaceX o (onPointerMove e w) (contentX o w (lastX w))) (Fin (clientX e))
  /\ same (surfaceY o (onPointerMove e w) (contentY o w (lastY w))) (Fin (clientY e))
  /\ lastX (onPointerMove e w) = clientX e /\ lastY (onPointerMove e w) = clientY e.
Proof.
  intros Hp Hpan Hs Hs0 Ht Hu.
  unfold onPointerMove, map_has. rewrite Hp. cbn [existsb fst]. rewrite Z.eqb_refl.
  cbn [orb negb]. cbn [pointers set_pointers]. rewrite map_set_only. cbn [map snd].
  unfold pan. cbn [isPanning set_pointers]. rewrite Hpan. cbn [negb].
  unfold surfaceX, surfaceY, contentX, contentY, applyTransform.
  cbn [scale tx ty lastX lastY x y set_transform set_last set_tx set_ty set_pointers].
  rewrite Hs, Ht, Hu. cbn [sub add neg]. rewrite !div_finite by exact Hs0.
  cbn [add mul same].
  repeat split; try reflexivity; field; exact Hs0.
Qed.

(** After a contact is lifted the pan flag is down, so the first move of
    the one contact that is left only records where it is: the view and
    the applied transform do not move. *)
Theorem move_after_lift_does_not_jump (up mv : PointerEvent) (w : World) (p : Point) :
  map_delete (pointerId up) (pointers w) = [(pointerId mv, p)] ->
  scale (onPointerMove mv (onPointerUp up w)) = scale w
  /\ tx (onPointerMove mv (onPointerUp up w)) = tx w
  /\ ty (onPointerMove mv (onPointerUp up w)) = ty w
  /\ transform (onPointerMove mv (onPointerUp up w)) = transform w
  /\ isPanning (onPointerMove mv (onPointerUp up w)) = true
  /\ lastX (onPointerMove mv (onPointerUp up w)) = clientX mv
  /\ lastY (onPointerMove mv (onPointerUp up w)) = clientY mv
  /\ _pinchStart (onPointerMove mv (onPointerUp up w)) = None.
Proof.
  intros Hp. unfold onPointerMove, onPointerUp, map_has.
  cbn [pointers set_pinchStart set_isPanning set_pointers]. rewrite Hp.
  cbn [existsb fst]. rewrite Z.eqb_refl. cbn [orb negb]. rewrite map_set_only.
  cbn [map snd]. unfold pan. cbn [isPanning set_pointers set_pinchStart set_isPanning negb].
  repeat split.
Qed.

(** During a pinch the scale is a function of the anchor and of the
    distance of the contacts now: the moves made in between do not count,
    and contacts back at the distance of the anchor give its scale back. *)
Theorem pinch_scale_from_anchor
    (e e' : PointerEvent) (p0 p1 q0 q1 : Point) (w : World) (start : PinchStart) :
  _pinchStart w = Some start ->
  scale (pinch e p0 p1 (pinch e' q0 q1 w)) = scale (pinch e p0 p1 w)
  /\ (zoomInvariant w -> ~ dist start == 0 ->
      hypot (x p1 - x p0) (y p1 - y p0) == dist start ->
      same (scale (pinch e p0 p1 w)) (pinchScale start)).
Proof.
  intros Hstart. split.
  - unfold pinch. rewrite Hstart. unfold applyTransform.
    cbn [_pinchStart scale minScale maxScale set_transform set_scale set_tx set_ty].
    now rewrite Hstart.
  - intros (Hc & [Hmin Hmax] & Hp) Hd Hh. unfold pinch. rewrite Hstart.
    unfold applyTransform. cbn [scale set_transform set_scale]. rewrite Hmin, Hmax.
    destruct (within_finite _ _ _ (Hp start Hstart)) as (a & Ha & La & Ua).
    rewrite Ha, div_finite by exact Hd. cbn [mul].
    assert (H01 : (1 # 10) <= 20) by lra.
    destruct (clamp_finite (a * (hypot (x p1 - x p0) (y p1 - y p0) / dist start)) H01)
      as (r & Er & _ & _ & M & _ & _).
    rewrite Er. cbn [same].
    assert (Hone : hypot (x p1 - x p0) (y p1 - y p0) / dist start == 1)
      by (rewrite Hh; field; exact Hd).
    rewrite M; rewrite Hone; lra.
Qed.

Lemma keys_map_set (k : Z) (v : Point) (m : list (Z * Point)) :
  map fst (map_set k v m)
  = if map_has k m then map fst m else map fst m ++ [k].
Proof.
  unfold map_has. induction m as [|[k' v'] m IH]; simpl; [reflexivity|].
  destruct (Z.eqb k' k) eqn:E; simpl.
  - apply Z.eqb_eq in E. now subst.
  - rewrite IH. now destruct (existsb _ m).
Qed.

Lemma map_has_In (k : Z) (m : list (Z * Point)) : map_has k m = true <-> In k (map fst m).
Proof.
  unfold map_has. rewrite existsb_exists. split.
  - intros ([k' v] & Hin & E). apply Z.eqb_eq in E. simpl in E. subst.
    apply in_map_iff. now exists (k, v).
  - intros H. apply in_map_iff in H as ([k' v] & E & Hin). simpl in E. subst.
    exists (k, v). split; [exact Hin|apply Z.eqb_refl].
Qed.

Lemma keys_map_set_distinct (k : Z) (v : Point) (m : list (Z * Point)) :
  NoDup (map fst m) -> NoDup (map fst (map_set k v m)).
Proof.
  intros H. rewrite keys_map_set. destruct (map_has k m) eqn:E; [exact H|].
  apply NoDup_app; [exact H|repeat constructor; auto|].
  intros a Ha [<-|[]]. apply map_has_In in Ha. congruence.
Qed.

Lemma map_delete_fresh (k : Z) (v : Point) (m : list (Z * Point)) :
  map_has k m = false -> map_delete k (map_set k v m) = m.
Proof.
  unfold map_has, map_delete. induction m as [|[k' v'] m IH]; simpl.
  - now rewrite Z.eqb_refl.
  - destruct (Z.eqb k' k) eqn:E; simpl; [discriminate|].
    intros H. rewrite E. simpl. now rewrite IH.
Qed.

Lemma contactIds_dispatch_move (e : PointerEvent) (w : World) :
  contactIds (onPointerMove e w) = contactIds w.
Proof.
  unfold contactIds, onPointerMove.
  destruct (map_has (pointerId e) (pointers w)) eqn:E; cbn [negb]; [|reflexivity].
  set (w1 := set_pointers _ w).
  assert (H1 : map fst (pointers w1) = map fst (pointers w)).
  { unfold w1. cbn [pointers set_pointers]. now rewrite keys_map_set, E. }
  rewrite <- H1.
  destruct (map snd (pointers w1)) as [|p [|p1 [|p2 l]]]; try reflexivity.
  - unfold pan. now destruct (negb (isPanning w1)).
  - unfold pinch. now destruct (_pinchStart w1).
Qed.

Lemma contactIds_distinct_dispatch (ev : ZoomEvent) (w : World) :
  NoDup (contactIds w) -> NoDup (contactIds (dispatch ev w)).
Proof.
  intros H. destruct ev; cbn [dispatch]; try exact H.
  - unfold onKeyDown. destruct (String.eqb key "+" || String.eqb key "=");
      destruct (String.eqb key "-"); exact H.
  - unfold contactIds, onPointerDown. cbn [pointers set_pointers].
    now apply keys_map_set_distinct.
  - now rewrite contactIds_dispatch_move.
  - unfold contactIds, onPointerUp, map_delete.
    cbn [pointers set_pinchStart set_isPanning set_pointers].
    now apply filter_keeps_distinct.
  - unfold contactIds, onPointerCancel, map_delete.
    cbn [pointers set_pinchStart set_isPanning set_pointers].
    now apply filter_keeps_distinct.
Qed.

(** The map of contacts: along every run no identifier is held twice; a
    move adds and removes none; a contact that goes down is held and one
    that is lifted or cancelled is not; and a fresh contact that goes down
    and up again leaves the map as it was. *)
Theorem contacts_bookkeeping :
  (forall evs, NoDup (contactIds (dispatchAll evs initialWorld)))
  /\ (forall e w, contactIds (onPointerMove e w) = contactIds w)
  /\ (forall e w, In (pointerId e) (contactIds (onPointerDown e w)))
  /\ (forall e w, ~ In (pointerId e) (contactIds (onPointerUp e w)))
  /\ (forall e w, ~ In (pointerId e) (contactIds (onPointerCancel e w)))
  /\ (forall e w, map_has (pointerId e) (pointers w) = false ->
        pointers (onPointerUp e (onPointerDown e w)) = pointers w).
Proof.
  split; [|split; [|split; [|split; [|split]]]].
  - intros evs. unfold dispatchAll.
    assert (H : NoDup (contactIds initialWorld)) by constructor.
    revert H. generalize initialWorld. induction evs as [|ev evs IH]; intros w H; simpl.
    + exact H.
    + apply IH. now apply contactIds_distinct_dispatch.
  - apply contactIds_dispatch_move.
  - intros e w. unfold contactIds, onPointerDown. cbn [pointers set_pointers].
    rewrite keys_map_set. destruct (map_has (pointerId e) (pointers w)) eqn:E.
    + now apply map_has_In.
    + apply in_or_app. right. now left.
  - intros e w H. unfold contactIds, onPointerUp, map_delete in H.
    cbn [pointers set_pinchStart set_isPanning set_pointers] in H.
    apply in_map_iff in H as ([k v] & Ek & Hin). apply filter_In in Hin as [_ Hin].
    simpl in Ek, Hin. subst k. now rewrite Z.eqb_refl in Hin.
  - intros e w H. unfold contactIds, onPointerCancel, map_delete in H.
    cbn [pointers set_pinchStart set_isPanning set_pointers] in H.
    apply in_map_iff in H as ([k v] & Ek & Hin). apply filter_In in Hin as [_ Hin].
    simpl in Ek, Hin. subst k. now rewrite Z.eqb_refl in Hin.
  - intros e w H. unfold onPointerUp, onPointerDown.
    cbn [pointers set_pinchStart set_isPanning set_pointers].
    now apply map_delete_fresh.
Qed.

End Contacts.

Lemma pan_follows_contact_witness :
  scale (@onPointerMove Scenario.host (Trace.pe 1 50 100) panning) = Fin 1
  /\ same (tx (@onPointerMove Scenario.host (Trace.pe 1 50 100) panning))
          (Fin (0 + (50 - lastX panning)))
  /\ same (ty (@onPointerMove Scenario.host (Trace.pe 1 50 100) panning))
          (Fin (0 + (100 - lastY panning)))
  /\ same (surfaceX 0 (@onPointerMove Scenario.host (Trace.pe 1 50 100) panning)
             (contentX 0 panning (lastX panning)))
          (Fin 50)
  /\ same (surfaceY 0 (@onPointerMove Scenario.host (Trace.pe 1 50 100) panning)
             (contentY 0 panning (lastY panning)))
          (Fin 100)
  /\ lastX (@onPointerMove Scenario.host (Trace.pe 1 50 100) panning) = 50
  /\ lastY (@onPointerMove Scenario.host (Trace.pe 1 50 100) panning) = 100.
Proof.
  apply (@pan_follows_contact Scenario.host 0 (Trace.pe 1 50 100) panning (mkPoint 0 100) 1 0 0);
    try reflexivity.
  discriminate.
Defined.

Lemma move_after_lift_does_not_jump_witness :
  let w := Trace.afterCapture in
  let w' := @onPointerMove Scenario.host (Trace.pe 1 0 100)
              (onPointerUp (Trace.pe 2 150 100) w) in
  scale w' = scale w /\ tx w' = tx w /\ ty w' = ty w /\ transform w' = transform w
  /\ isPanning w' = true /\ lastX w' = 0 /\ lastY w' = 100 /\ _pinchStart w' = None.
Proof.
  exact (@move_after_lift_does_not_jump Scenario.host (Trace.pe 2 150 100) (Trace.pe 1 0 100)
           Trace.afterCapture (mkPoint 50 100) eq_refl).
Defined.

Lemma afterCapture_invariant : @zoomInvariant Trace.afterCapture.
Proof.
  split; [|split]; [split; discriminate|split; reflexivity|].
  intros start [= <-]. split; discriminate.
Qed.

Lemma pinch_scale_from_anchor_witness :
  let start := mkPinchStart 100 (Fin 1) (mkPoint (200 # 2) (200 # 2)) in
  let e := Trace.pe 2 150 100 in
  scale (@pinch Scenario.host e (mkPoint 50 100) (mkPoint 150 100)
           (@pinch Scenario.host e (mkPoint 0 100) (mkPoint 300 100) Trace.afterCapture))
  = scale (@pinch Scenario.host e (mkPoint 50 100) (mkPoint 150 100) Trace.afterCapture)
  /\ same (scale (@pinch Scenario.host e (mkPoint 50 100) (mkPoint 150 100) Trace.afterCapture))
          (pinchScale start).
Proof.
  destruct (@pinch_scale_from_anchor Scenario.host (Trace.pe 2 150 100) (Trace.pe 2 150 100)
              (mkPoint 50 100) (mkPoint 150 100) (mkPoint 0 100) (mkPoint 300 100)
              Trace.afterCapture (mkPinchStart 100 (Fin 1) (mkPoint (200 # 2) (200 # 2))) eq_refl)
    as [H1 H2].
  split; [exact H1|].
  apply H2; [exact afterCapture_invariant|discriminate|reflexivity].
Defined.

(** ** The image inliner, as a whole *)

Section InlinerAgain.

Context {host : Host}.

Lemma skeleton_onElement (el : NodeId) (g : list Attr -> list Attr) (doc : Document) :
  skeleton (onElement el g doc) = skeleton doc.
Proof. unfold skeleton, onElement. now rewrite update_update. Qed.

Lemma attributes_onElement_other (el img : NodeId) (g : list Attr -> list Attr) (doc : Document) :
  el <> img -> attributes el (onElement img g doc) = attributes el doc.
Proof.
  intros Hne. unfold attributes, onElement. rewrite elements_update, find_hasId_map.
  destruct (find (hasId el) (elements doc)) as [e|] eqn:F; simpl; [|reflexivity].
  apply find_some in F as [_ F]. unfold hasId in *. apply Nat.eqb_eq in F.
  destruct (Nat.eqb (nodeId e) img) eqn:E; [|reflexivity].
  apply Nat.eqb_eq in E. congruence.
Qed.

Lemma name_set_value (a : Attr) (v : string) :
  name (mkAttr (attrNamespaceURI a) (attrPrefix a) (attrLocalName a) v) = name a.
Proof. reflexivity. Qed.

Lemma attrs_get_set_other (q q' v : string) (l : list Attr) :
  q <> q' -> attrs_get q (attrs_set q' v l) = attrs_get q l.
Proof.
  intros Hne. unfold attrs_get. induction l as [|a l IH]; cbn [attrs_set find].
  - change (name (mkAttr None None q' v)) with q'.
    destruct (String.eqb q' q) eqn:E; [apply String.eqb_eq in E; congruence|reflexivity].
  - destruct (String.eqb (name a) q') eqn:E'; cbn [find].
    + rewrite name_set_value. apply String.eqb_eq in E'. rewrite E'.
      destruct (String.eqb q' q) eqn:E; [apply String.eqb_eq in E; congruence|].
      reflexivity.
    + destruct (String.eqb (name a) q); [reflexivity|exact IH].
Qed.

Lemma attrs_get_set (q v : string) (l : list Attr) : attrs_get q (attrs_set q v l) = Some v.
Proof.
  unfold attrs_get. induction l as [|a l IH]; cbn [attrs_set find].
  - change (name (mkAttr None None q v)) with q. now rewrite String.eqb_refl.
  - destruct (String.eqb (name a) q) eqn:E; cbn [find].
    + rewrite name_set_value, E. reflexivity.
    + now rewrite E.
Qed.

Lemma getAttribute_setAttribute_other (el img : NodeId) (q v : string) (doc : Document) :
  q <> "href" ->
  getAttribute el q (setAttribute img "href" v doc) = getAttribute el q doc.
Proof.
  intros Hq. unfold getAttribute, setAttribute.
  destruct (Nat.eq_dec el img) as [->|Hne].
  - rewrite attributes_onElement. unfold attributes.
    destruct (find (hasId img) (elements doc)); [|reflexivity].
    now apply attrs_get_set_other.
  - now rewrite attributes_onElement_other.
Qed.

(** One step of the loop changes nothing or sets the href of its image,
    and fetches at most once. *)
Lemma inlineImage_cases (img : NodeId) (s : Inlining) :
  (workingDoc (inlineImage img s) = workingDoc s
   \/ exists v, workingDoc (inlineImage img s) = setAttribute img "href" v (workingDoc s))
  /\ (fetches s <= fetches (inlineImage img s) <= S (fetches s))%nat.
Proof.
  unfold inlineImage.
  destruct (imageHref img (workingDoc s)) as [url|]; [|split; [now left|lia]].
  destruct (negb (truthy (Some url))); [split; [now left|lia]|].
  destruct (startsWith "data:" url); [split; [now left|lia]|].
  destruct (fetch (fetches s) url) as [m|ok st body]; cbn; [split; [now left|lia]|].
  destruct ok; cbn; [|split; [now left|lia]].
  destruct (readAsDataURL body) as [d|]; cbn; [|split; [now left|lia]].
  split; [right; now exists d|lia].
Qed.

(** The loop over the images touches href attributes of those images and
    nothing else: the tree without its attributes is the same, an element
    that is not one of the images keeps its attributes, every attribute
    of another name keeps its value, and there is at most one fetch for
    each image. *)
Theorem inlineImages_touches_href_only (images : list NodeId) (s : Inlining) :
  skeleton (workingDoc (inlineImages images s)) = skeleton (workingDoc s)
  /\ (forall el, ~ In el images ->
        attributes el (workingDoc (inlineImages images s)) = attributes el (workingDoc s))
  /\ (forall el q, q <> "href" ->
        getAttribute el q (workingDoc (inlineImages images s)) = getAttribute el q (workingDoc s))
  /\ (fetches s <= fetches (inlineImages images s) <= fetches s + List.length images)%nat.
Proof.
  unfold inlineImages, forEach. revert s.
  induction images as [|img images IH]; intros s; simpl.
  - repeat split; auto; lia.
  - destruct (IH (inlineImage img s)) as (Hk & Ha & Hq & Hf).
    destruct (inlineImage_cases img s) as ([Hd|(v & Hd)] & Hf1).
    + rewrite Hd in *. repeat split; auto; lia.
    + split; [|split; [|split]].
      * rewrite Hk, Hd. apply skeleton_onElement.
      * intros el Hel. rewrite Ha by tauto. rewrite Hd.
        apply attributes_onElement_other. intros ->. tauto.
      * intros el q Hne. rewrite Hq by exact Hne. rewrite Hd.
        now apply getAttribute_setAttribute_other.
      * lia.
Qed.

Lemma startsWith_nonempty (p s : string) : p <> "" -> startsWith p s = true -> s <> "".
Proof. destruct p; [congruence|]. intros _ H ->. discriminate. Qed.

(** Once an image is inlined, a second pass skips it: its plain href holds
    the data URI, so nothing is fetched and nothing changes. *)
Theorem inlineImage_again_is_skipped
    (img : NodeId) (s : Inlining) (url body dataUrl : string) (st : nat) :
  imageHref img (workingDoc s) = Some url ->
  url <> "" -> startsWith "data:" url = false ->
  fetch (fetches s) url = Response true st body ->
  readAsDataURL body = Some dataUrl ->
  startsWith "data:" dataUrl = true ->
  getAttribute img "href" (workingDoc (inlineImage img s)) = Some dataUrl
  /\ inlineImage img (inlineImage img s) = inlineImage img s.
Proof.
  intros Hh Hn Hd Hf Hr Hdata.
  assert (Hs1 : inlineImage img s
                = mkInlining (setAttribute img "href" dataUrl (workingDoc s))
                             (warnings s) (S (fetches s))).
  { unfold inlineImage. rewrite Hh, Hd, (truthy_some Hn). cbn [negb]. rewrite Hf. cbn [negb].
    now rewrite Hr. }
  assert (Hget : getAttribute img "href" (setAttribute img "href" dataUrl (workingDoc s))
                 = Some dataUrl).
  { unfold getAttribute, setAttribute. rewrite attributes_onElement.
    unfold imageHref, orElse, getAttribute, getAttributeNS, attributes in Hh.
    destruct (find (hasId img) (elements (workingDoc s))); [apply attrs_get_set|].
    discriminate. }
  rewrite Hs1. cbn [workingDoc]. split; [exact Hget|].
  unfold inlineImage at 1. cbn [workingDoc]. unfold imageHref, orElse. rewrite Hget.
  assert (Ht : truthy (Some dataUrl) = true).
  { apply truthy_some. apply (startsWith_nonempty (p := "data:")); [discriminate|exact Hdata]. }
  rewrite Ht. cbn [negb]. rewrite Hdata, ?Ht. reflexivity.
Qed.

End InlinerAgain.

Lemma inlineImage_again_is_skipped_witness :
  let s := mkInlining Scenario.imagesDoc [] 0 in
  getAttribute 2%nat "href" (workingDoc (@inlineImage Scenario.host 2%nat s))
  = Some "data:image/png;base64,iVBORw0KGgo="
  /\ @inlineImage Scenario.host 2%nat (@inlineImage Scenario.host 2%nat s)
     = @inlineImage Scenario.host 2%nat s.
Proof.
  apply (@inlineImage_again_is_skipped Scenario.host 2%nat (mkInlining Scenario.imagesDoc [] 0)
           "http://example.org/a.png" "iVBORw0KGgo=" "data:image/png;base64,iVBORw0KGgo=" 200%nat);
    try reflexivity.
  discriminate.
Defined.

(** ** The source area, the source panel, and clear *)

Section SourceAgain.

Context {host : Host}.

Lemma documentElement_member (doc : Document) (n : Node) :
  documentElement doc = Some n -> In n doc /\ documentElement [n] = Some n.
Proof.
  induction doc as [|[e cs|k d] doc IH]; simpl; [discriminate| |].
  - intros [= <-]. split; [now left|reflexivity].
  - intros H. destruct (IH H) as [H1 H2]. split; [now right|exact H2].
Qed.

Lemma renderSVGDocument_rendered (doc : Document) (root : Node) (w : World) :
  documentElement doc = Some root ->
  renderSVGDocument doc w = (Return tt, rendered root w).
Proof.
  intros Hroot. destruct (documentElement_member _ Hroot) as [_ Hone].
  unfold rendered, run, renderSVGDocument, bind, modify, importNode, ret.
  rewrite Hroot, Hone. reflexivity.
Qed.

(** Rendering the document that is rendered already changes nothing. *)
Lemma rendered_rendered (root : Node) (w : World) :
  documentElement [root] = Some root -> rendered root (rendered root w) = rendered root w.
Proof.
  destruct root as [e cs|k d]; [intros _|discriminate].
  destruct w. vm_compute. reflexivity.
Qed.

Lemma elements_member (doc : Document) (n : Node) (e : ElementData) :
  In n doc -> In e (elementsOf n) -> In e (elements doc).
Proof. intros Hn He. apply in_flat_map. now exists n. Qed.

Lemma NoDup_flat_map_member (A B : Type) (f : A -> list B) (l : list A) (a : A) :
  In a l -> NoDup (flat_map f l) -> NoDup (f a).
Proof.
  induction l as [|b l IH]; simpl; [tauto|]. intros [->|Hin] H.
  - exact (NoDup_app_remove_r _ _ H).
  - apply IH; [exact Hin|]. exact (NoDup_app_remove_l _ _ H).
Qed.

Lemma wellFormed_member (doc : Document) (n : Node) :
  In n doc -> wellFormed doc -> wellFormed [n].
Proof.
  intros Hn [Hid Hnames]. split.
  - rewrite ids_elements in *. simpl. rewrite app_nil_r.
    exact (NoDup_flat_map_member idsOf doc n Hn Hid).
  - rewrite Forall_forall in *. intros e He. apply Hnames.
    unfold elements in He. simpl in He. rewrite app_nil_r in He.
    now apply (elements_member doc n).
Qed.

Lemma parseSVGText_returns (txt : string) (doc : Document) :
  parseSVGText txt = Return doc ->
  parseFromString txt = doc /\ hasErrorNode doc = false.
Proof.
  unfold parseSVGText, hasErrorNode. intros H.
  pose proof (querySelector_none (TypeSelector "parsererror") (parseFromString txt)) as Hq.
  unfold matches in Hq.
  destruct (querySelector (TypeSelector "parsererror") (parseFromString txt)); [discriminate|].
  injection H as <-. split; [reflexivity|]. now apply Hq.
Qed.

Lemma sanitized_has_no_error_node (doc : Document) (n : Node) :
  wellFormed doc -> hasErrorNode doc = false -> In n (sanitizeSVGDocument doc) ->
  hasErrorNode [n] = false.
Proof.
  intros Hwf Herr Hn. rewrite (sanitizeSVGDocument_passes Hwf) in Hn.
  unfold hasErrorNode in *. apply not_true_is_false. intros H.
  apply existsb_exists in H as (e & He & Hname).
  unfold elements in He. simpl in He. rewrite app_nil_r in He.
  pose proof (elements_member _ _ _ Hn He) as He'.
  rewrite elements_update in He'. apply in_map_iff in He' as (a & <- & Ha).
  apply elements_prune in Ha as [Ha _]. simpl in Hname.
  assert (Ht : existsb (fun e0 => String.eqb (localName e0) "parsererror") (elements doc) = true).
  { apply existsb_exists. now exists a. }
  congruence.
Qed.

(** Right after a load, the source area holds the serialized root; with a
    parser that reads it back as that root, the load button of the source
    area renders the same document again and leaves every field of the
    state and of the page as it is. *)
Theorem load_source_after_load_is_stable
    (txt : string) (doc : Document) (root : Node) (w : World) :
  parseSVGText txt = Return doc ->
  wellFormed doc ->
  documentElement (sanitizeSVGDocument doc) = Some root ->
  trim (serializeToString root) = serializeToString root ->
  serializeToString root <> "" ->
  parseFromString (serializeToString root) = [root] ->
  sourceArea (run (loadText txt) w) = serializeToString root
  /\ run onLoadSourceClick (run (loadText txt) w) = run (loadText txt) w.
Proof.
  intros Hp Hwf Hroot Htrim Hne Hback.
  destruct (parseSVGText_returns _ Hp) as [_ Herr].
  destruct (documentElement_member _ Hroot) as [Hin Hone].
  assert (Hwf' : wellFormed (sanitizeSVGDocument doc)).
  { rewrite (sanitizeSVGDocument_passes Hwf).
    now apply wellFormed_update_kept, wellFormed_prune. }
  assert (Hload : run (loadText txt) w = rendered root w).
  { unfold loadText, run, bind, liftOutcome. rewrite Hp.
    now rewrite (renderSVGDocument_rendered _ w Hroot). }
  assert (Hsrc : sourceArea (rendered root w) = serializeToString root).
  { unfold rendered, run, renderSVGDocument, bind, modify, importNode, ret.
    rewrite Hone. reflexivity. }
  assert (Hp2 : parseSVGText (serializeToString root) = Return [root]).
  { unfold parseSVGText. rewrite Hback.
    pose proof (querySelector_none (TypeSelector "parsererror") [root]) as Hq.
    unfold matches in Hq.
    destruct (querySelector (TypeSelector "parsererror") [root]); [|reflexivity].
    destruct Hq as [_ Hq].
    pose proof (sanitized_has_no_error_node root Hwf Herr Hin) as Hnone.
    unfold hasErrorNode in Hnone. specialize (Hq Hnone). discriminate. }
  assert (Hs2 : sanitizeSVGDocument [root] = [root]).
  { apply sanitizeSVGDocument_nothing_to_remove.
    - exact (@wellFormed_member _ _ Hin Hwf').
    - rewrite (sanitizeSVGDocument_passes Hwf) in Hin.
      pose proof (sanitized_by_code doc) as Hsafe. rewrite Forall_forall in *.
      intros e He. apply Hsafe. unfold elements in He. simpl in He.
      rewrite app_nil_r in He. now apply (elements_member _ root). }
  rewrite Hload. split; [exact Hsrc|].
  unfold onLoadSourceClick, run. rewrite Hsrc, Htrim.
  destruct (String.eqb (serializeToString root) "") eqn:E;
    [apply String.eqb_eq in E; contradiction|].
  unfold tryCatch, loadText, bind, liftOutcome. rewrite Hp2, Hs2.
  rewrite (renderSVGDocument_rendered [root] (rendered root w) Hone). cbn [snd].
  now apply rendered_rendered.
Qed.

(** Each click on the toggle flips the flag and sets the toolbar and the
    label from it; two clicks give back a panel whose toolbar and label
    agreed with its flag. *)
Theorem onToggleSourceClick_twice (p : SourcePanel) :
  panelConsistent (onToggleSourceClick p)
  /\ showSource (onToggleSourceClick p) = negb (showSource p)
  /\ showSource (onToggleSourceClick (onToggleSourceClick p)) = showSource p
  /\ (panelConsistent p -> onToggleSourceClick (onToggleSourceClick p) = p).
Proof.
  unfold panelConsistent, onToggleSourceClick. cbn [showSource toolbarDisplay toggleSourceText].
  rewrite negb_involutive. repeat split.
  intros [H1 H2]. destruct p as [s d t]. cbn in *. now subst.
Qed.

(** After clear no document is current and the view is the identity: a
    download produces no file, the inliner and the empty source area only
    set the status line, and fit changes nothing.  The transform style is
    not applied again. *)
Theorem after_clear_nothing_to_act_on (w : World) :
  identityView (onClearClick w)
  /\ svgElement (onClearClick w) = None
  /\ svgContainer (onClearClick w) = []
  /\ transform (onClearClick w) = transform w
  /\ pointers (onClearClick w) = pointers w
  /\ downloads (onDownloadClick (onClearClick w)) = downloads w
  /\ onDownloadClick (onClearClick w) = setStatus "没有可下载的 SVG" (onClearClick w)
  /\ run onInlineImgsClick (onClearClick w) = setStatus "先加载一个 SVG" (onClearClick w)
  /\ adjustFit (onClearClick w) = onClearClick w
  /\ (trim "" = "" -> run onLoadSourceClick (onClearClick w) = setStatus "源为空" (onClearClick w)).
Proof.
  assert (Hsrc : sourceArea (onClearClick w) = "") by (destruct w; vm_compute; reflexivity).
  unfold identityView.
  repeat match goal with |- _ /\ _ => split end;
    try (destruct w; vm_compute; reflexivity).
  intros Ht. unfold onLoadSourceClick, run. rewrite Hsrc, Ht. reflexivity.
Qed.

End SourceAgain.

Lemma load_source_after_load_is_stable_witness :
  sourceArea (run (@loadText Scenario.host Scenario.sizedText) initialWorld)
  = Scenario.sizedText
  /\ run (@onLoadSourceClick Scenario.host)
         (run (@loadText Scenario.host Scenario.sizedText) initialWorld)
     = run (@loadText Scenario.host Scenario.sizedText) initialWorld.
Proof.
  apply (@load_source_after_load_is_stable Scenario.host Scenario.sizedText Scenario.sizedDoc
           sizedRoot initialWorld); try reflexivity.
  - exact sizedDoc_wellFormed.
  - discriminate.
Defined.

(** ** The ways in: file, drop, paste, address, source area *)

Section EntryPoints.

Context {host : Host}.

Lemma rendered_setStatus (root : Node) (t : string) (w : World) :
  documentElement [root] = Some root ->
  rendered root (setStatus t w) = rendered root w.
Proof.
  destruct root as [e cs|k d]; [intros _|discriminate].
  destruct w. vm_compute. reflexivity.
Qed.

Lemma loadText_rendered (txt : string) (doc : Document) (root : Node) (w : World) :
  parseSVGText txt = Return doc ->
  documentElement (sanitizeSVGDocument doc) = Some root ->
  loadText txt w = (Return tt, rendered root w).
Proof.
  intros Hp Hroot. unfold loadText, bind, liftOutcome. rewrite Hp.
  exact (renderSVGDocument_rendered _ w Hroot).
Qed.

Lemma svgText_nonempty (txt : string) :
  startsWith "<svg" txt || includes "<svg" txt = true -> String.eqb txt "" = false.
Proof. destruct txt; [discriminate|reflexivity]. Qed.

(** A text that holds an svg tag and parses gives the same state and page
    through every way in: the file input, a dropped file, dropped text,
    the clipboard, the address box and the source area all end where
    parse, sanitize and render of that text end; the status lines written
    on the way are overwritten. *)
Theorem entry_points_render_alike
    (txt other : string) (doc : Document) (root : Node) (w : World) :
  parseSVGText txt = Return doc ->
  documentElement (sanitizeSVGDocument doc) = Some root ->
  trim txt = txt ->
  startsWith "<svg" txt || includes "<svg" txt = true ->
  run (onFileText txt) w = run (loadText txt) w
  /\ run (onDrop (Some txt) other other) w = run (loadText txt) w
  /\ run (onDrop None txt other) w = run (loadText txt) w
  /\ run (onPasteClick (Return txt)) w = run (loadText txt) w
  /\ (urlInput w = txt -> run onUrlInputEnter w = run (loadText txt) w)
  /\ (sourceArea w = txt -> run onLoadSourceClick w = run (loadText txt) w).
Proof.
  intros Hp Hroot Htrim Hsvg.
  pose proof (svgText_nonempty _ Hsvg) as Hne.
  destruct (documentElement_member _ Hroot) as [_ Hone].
  assert (Hload : forall v, loadText txt v = (Return tt, rendered root v))
    by (intros v; exact (@loadText_rendered txt doc root v Hp Hroot)).
  assert (Hfile : run (onFileText txt) w = run (loadText txt) w).
  { unfold onFileText, run, tryCatch, bind, modify. rewrite !Hload. cbn [snd].
    now apply rendered_setStatus. }
  assert (Hany : run (loadFromTextOrUrl txt) w = run (loadText txt) w).
  { unfold loadFromTextOrUrl, run. rewrite Hsvg. unfold tryCatch, bind, modify.
    rewrite !Hload. cbn [snd]. now apply rendered_setStatus. }
  split; [exact Hfile|]. split; [exact Hfile|]. split; [|split; [|split]].
  - unfold onDrop. rewrite Hne. cbv iota. rewrite Hne, Htrim. exact Hany.
  - unfold run, onPasteClick, tryCatch, bind, liftOutcome. rewrite Hne, Htrim.
    unfold run in Hany. destruct (loadFromTextOrUrl txt w) as [[a|e] v] eqn:E.
    + exact Hany.
    + exfalso. revert E. unfold loadFromTextOrUrl. rewrite Hsvg.
      unfold tryCatch, bind, modify. rewrite Hload. discriminate.
  - intros Hu. unfold onUrlInputEnter, run. rewrite Hu, Htrim, Hne. exact Hany.
  - intros Hs. unfold onLoadSourceClick, run. rewrite Hs, Htrim, Hne.
    unfold tryCatch. rewrite !Hload. reflexivity.
Qed.

Lemma blank_not_svg : startsWith "<svg" "" || includes "<svg" "" = false.
Proof. reflexivity. Qed.

(** Pasted or dropped text is tested before it is trimmed, the address box
    after: text of white space only is ignored by the address box, while
    paste and drop go on to fetch the empty address with it. *)
Theorem blank_text_is_fetched (c other : string) (w : World) :
  c <> "" -> trim c = "" ->
  run (onPasteClick (Return c)) w = run (loadFromTextOrUrl "") w
  /\ run (onDrop None c other) w = run (loadFromTextOrUrl "") w
  /\ (urlInput w = c -> run onUrlInputEnter w = w)
  /\ (forall m, fetch 0 "" = NetworkError m ->
        statusText (run (loadFromTextOrUrl "") w) = ("状态:URL 加载失败:" ++ m)%string)
  /\ (forall st body, fetch 0 "" = Response false st body ->
        statusText (run (loadFromTextOrUrl "") w)
        = ("状态:URL 加载失败:网络错误 "
             ++ numberToString (Fin (inject_Z (Z.of_nat st))))%string).
Proof.
  intros Hc Ht.
  assert (Hne : String.eqb c "" = false).
  { destruct (String.eqb c "") eqn:E; [apply String.eqb_eq in E; contradiction|reflexivity]. }
  split; [|split; [|split; [|split]]].
  - unfold run, onPasteClick, tryCatch at 1, bind, liftOutcome. rewrite Hne, Ht.
    destruct (loadFromTextOrUrl "" w) as [[a|e] v] eqn:E; [reflexivity|].
    exfalso. revert E. unfold loadFromTextOrUrl. rewrite blank_not_svg.
    unfold tryCatch, bind, modify.
    destruct (fetch 0 "") as [m|ok st body]; [discriminate|].
    destruct ok; cbn [negb]; [|discriminate].
    destruct (loadText body _) as [[a|e'] v']; discriminate.
  - unfold onDrop. rewrite Hne. cbv iota. now rewrite Hne, Ht.
  - intros Hu. unfold onUrlInputEnter, run. rewrite Hu, Ht. reflexivity.
  - intros m Hm. unfold loadFromTextOrUrl, run. rewrite blank_not_svg.
    unfold tryCatch, bind, modify. rewrite Hm. reflexivity.
  - intros st body Hr. unfold loadFromTextOrUrl, run. rewrite blank_not_svg.
    unfold tryCatch, bind, modify. rewrite Hr. reflexivity.
Qed.

End EntryPoints.

Lemma entry_points_render_alike_witness :
  let w := set_urlInput Scenario.sizedText (set_sourceArea Scenario.sizedText initialWorld) in
  let w' := run (@loadText Scenario.host Scenario.sizedText) w in
  run (@onFileText Scenario.host Scenario.sizedText) w = w'
  /\ run (@onDrop Scenario.host (Some Scenario.sizedText) "" "") w = w'
  /\ run (@onDrop Scenario.host None Scenario.sizedText "") w = w'
  /\ run (@onPasteClick Scenario.host (Return Scenario.sizedText)) w = w'
  /\ run (@onUrlInputEnter Scenario.host) w = w'
  /\ run (@onLoadSourceClick Scenario.host) w = w'.
Proof.
  destruct (@entry_points_render_alike Scenario.host Scenario.sizedText "" Scenario.sizedDoc
              sizedRoot
              (set_urlInput Scenario.sizedText (set_sourceArea Scenario.sizedText initialWorld))
              eq_refl eq_refl eq_refl eq_refl)
    as (H1 & H2 & H3 & H4 & H5 & H6).
  exact (conj H1 (conj H2 (conj H3 (conj H4 (conj (H5 eq_refl) (H6 eq_refl)))))).
Defined.

Lemma blank_text_is_fetched_witness :
  let w := set_urlInput "  " initialWorld in
  run (@onPasteClick Scenario.host (Return "  ")) w = run (@loadFromTextOrUrl Scenario.host "") w
  /\ run (@onDrop Scenario.host None "  " "") w = run (@loadFromTextOrUrl Scenario.host "") w
  /\ run (@onUrlInputEnter Scenario.host) w = w
  /\ statusText (run (@loadFromTextOrUrl Scenario.host "") w)
     = "状态:URL 加载失败:Failed to fetch".
Proof.
  assert (Hc : "  "%string <> ""%string) by discriminate.
  destruct (@blank_text_is_fetched Scenario.host "  " "" (set_urlInput "  " initialWorld)
              Hc eq_refl)
    as (H1 & H2 & H3 & H4 & _).
  exact (conj H1 (conj H2 (conj (H3 eq_refl) (H4 "Failed to fetch"%string eq_refl)))).
Defined.

(** ** The page as a whole *)

Section PageFacts.

Context {host : Host}.

Hypothesis parser_well_formed : forall txt, wellFormed (parseFromString txt).

Lemma invariant_same_document (w w' : World) :
  svgElement w' = svgElement w -> svgContainer w' = svgContainer w ->
  pageInvariant w -> pageInvariant w'.
Proof.
  unfold pageInvariant, currentSanitized, mountedCurrent. intros -> ->. tauto.
Qed.

Lemma keeps_ret (A : Type) (a : A) : keeps (ret a).
Proof. intros w H. exact H. Qed.

Lemma keeps_throw (A : Type) (e : Exception) : keeps (@throw A e).
Proof. intros w H. exact H. Qed.

Lemma keeps_bind (A B : Type) (m : Script A) (k : A -> Script B) :
  keeps m -> (forall a, keeps (k a)) -> keeps (bind m k).
Proof.
  intros Hm Hk w H. unfold bind. specialize (Hm w H).
  destruct (m w) as [[a|e] w']; cbn [snd] in *; [now apply Hk|exact Hm].
Qed.

Lemma keeps_tryCatch (A : Type) (m : Script A) (h : Exception -> Script A) :
  keeps m -> (forall e, keeps (h e)) -> keeps (tryCatch m h).
Proof.
  intros Hm Hh w H. unfold tryCatch. specialize (Hm w H).
  destruct (m w) as [[a|e] w']; cbn [snd] in *; [exact Hm|now apply Hh].
Qed.

Lemma keeps_setStatus (t : string) : keeps (modify (setStatus t)).
Proof. intros w. now apply invariant_same_document. Qed.

Lemma cleanByCode_root (doc : Document) (root : Node) :
  cleanByCode (elements doc) -> documentElement doc = Some root ->
  cleanByCode (elementsOf root).
Proof.
  unfold cleanByCode. rewrite !Forall_forall. intros H Hroot e He.
  destruct (documentElement_member _ Hroot) as [Hin _].
  apply H. now apply (elements_member doc root).
Qed.

(** Rendering a document that holds nothing the sanitizer removes sets up
    the invariant, whatever the page was. *)
Lemma renderSVGDocument_invariant (doc : Document) (w : World) :
  cleanByCode (elements doc) -> pageInvariant (snd (renderSVGDocument doc w)).
Proof.
  intros Hclean. unfold pageInvariant, currentSanitized, mountedCurrent.
  unfold renderSVGDocument, bind, modify, importNode, ret, throw.
  destruct (documentElement doc) as [root|] eqn:Hroot; cbn.
  - split; [exact (cleanByCode_root _ Hclean Hroot)|reflexivity].
  - split; [exact I|reflexivity].
Qed.

Lemma sanitizeSVGDocument_clean (doc : Document) :
  wellFormed doc -> cleanByCode (elements (sanitizeSVGDocument doc)).
Proof. intros Hwf. rewrite (sanitizeSVGDocument_passes Hwf). apply sanitized_by_code. Qed.

Lemma parseSVGText_well_formed (txt : string) (doc : Document) :
  parseSVGText txt = Return doc -> wellFormed doc.
Proof.
  intros H. destruct (parseSVGText_returns _ H) as [<- _]. apply parser_well_formed.
Qed.

Lemma keeps_loadText (txt : string) : keeps (loadText txt).
Proof.
  intros w H. unfold loadText, bind, liftOutcome.
  destruct (parseSVGText txt) as [doc|e] eqn:Hp; [|exact H].
  apply renderSVGDocument_invariant, sanitizeSVGDocument_clean.
  exact (parseSVGText_well_formed _ Hp).
Qed.

Lemma keeps_onFileText (txt : string) : keeps (onFileText txt).
Proof.
  apply keeps_tryCatch; [|intros e; apply keeps_setStatus].
  apply keeps_bind; [apply keeps_setStatus|intros _; apply keeps_loadText].
Qed.

Lemma keeps_loadFromTextOrUrl (input : string) : keeps (loadFromTextOrUrl input).
Proof.
  unfold loadFromTextOrUrl.
  destruct (startsWith "<svg" input || includes "<svg" input).
  - apply keeps_tryCatch; [|intros e; apply keeps_setStatus].
    apply keeps_bind; [apply keeps_setStatus|intros _; apply keeps_loadText].
  - apply keeps_tryCatch; [|intros e; apply keeps_setStatus].
    apply keeps_bind; [apply keeps_setStatus|intros _].
    destruct (fetch 0 input) as [m|ok st body]; [apply keeps_throw|].
    destruct (negb ok); [apply keeps_throw|apply keeps_loadText].
Qed.

Lemma keeps_onPasteClick (clip : Outcome string) : keeps (onPasteClick clip).
Proof.
  apply keeps_tryCatch; [|intros e; apply keeps_setStatus].
  apply keeps_bind; [intros w H; exact H|intros c].
  destruct (String.eqb c ""); [apply keeps_setStatus|apply keeps_loadFromTextOrUrl].
Qed.

Lemma keeps_onDrop (file : option string) (plain uriList : string) :
  keeps (onDrop file plain uriList).
Proof.
  unfold onDrop. destruct file as [txt|]; [apply keeps_onFileText|].
  cbv zeta. destruct (String.eqb (if String.eqb plain "" then uriList else plain) "");
    [apply keeps_ret|apply keeps_loadFromTextOrUrl].
Qed.

Lemma keeps_onUrlInputEnter : keeps onUrlInputEnter.
Proof.
  intros w H. unfold onUrlInputEnter. cbv zeta.
  destruct (String.eqb (trim (urlInput w)) ""); [exact H|now apply keeps_loadFromTextOrUrl].
Qed.

Lemma keeps_onLoadSourceClick : keeps onLoadSourceClick.
Proof.
  intros w H. unfold onLoadSourceClick. cbv zeta.
  generalize (trim (sourceArea w)). intros txt.
  destruct (String.eqb txt ""); [now apply keeps_setStatus|].
  refine (@keeps_tryCatch _ _ _ (keeps_loadText txt) _ w H).
  intros e. apply keeps_setStatus.
Qed.

(** *** The working copy of the inliner stays a well-formed document *)

Lemma names_attrs_set (q v : string) (l : list Attr) :
  map name (attrs_set q v l)
  = if attrs_has q l then map name l else (map name l ++ [q])%list.
Proof.
  unfold attrs_has. induction l as [|a l IH]; cbn [attrs_set map existsb app]; [reflexivity|].
  destruct (String.eqb (name a) q) eqn:E; cbn [orb map].
  - now rewrite name_set_value.
  - rewrite IH. now destruct (existsb (fun a0 => String.eqb (name a0) q) l).
Qed.

Lemma attrs_has_In (q : string) (l : list Attr) :
  attrs_has q l = false -> ~ In q (map name l).
Proof.
  unfold attrs_has. intros H Hin. apply in_map_iff in Hin as (a & <- & Ha).
  assert (Ht : existsb (fun a0 => String.eqb (name a0) (name a)) l = true).
  { apply existsb_exists. exists a. split; [exact Ha|apply String.eqb_refl]. }
  congruence.
Qed.

Lemma NoDup_snoc (A : Type) (l : list A) (a : A) : NoDup l -> ~ In a l -> NoDup (l ++ [a]).
Proof.
  induction l as [|b l IH]; intros Hl Ha; simpl.
  - constructor; [tauto|constructor].
  - inversion Hl as [|? ? Hb Hrest]; subst. constructor.
    + rewrite in_app_iff. simpl. intros [H|[H|[]]]; [tauto|]. subst. apply Ha. now left.
    + apply IH; [exact Hrest|]. intros H. apply Ha. now right.
Qed.

Lemma wellFormed_setAttribute (el : NodeId) (q v : string) (doc : Document) :
  wellFormed doc -> wellFormed (setAttribute el q v doc).
Proof.
  intros [Hid Hnames]. unfold setAttribute, onElement. split.
  - rewrite elements_update, map_map. simpl. exact Hid.
  - rewrite elements_update. rewrite Forall_forall in *. intros e He.
    apply in_map_iff in He as (a & <- & Ha). simpl.
    destruct (hasId el a); [|now apply Hnames].
    rewrite names_attrs_set. destruct (attrs_has q (attrs a)) eqn:E; [now apply Hnames|].
    apply NoDup_snoc; [now apply Hnames|now apply attrs_has_In].
Qed.

Lemma wellFormed_inlineImages (images : list NodeId) (s : Inlining) :
  wellFormed (workingDoc s) -> wellFormed (workingDoc (inlineImages images s)).
Proof.
  unfold inlineImages, forEach. revert s.
  induction images as [|img images IH]; intros s H; simpl; [exact H|].
  apply IH. destruct (inlineImage_cases img s) as ([->|(v & ->)] & _);
    [exact H|now apply wellFormed_setAttribute].
Qed.

Lemma keeps_onInlineImgsClick : keeps onInlineImgsClick.
Proof.
  intros w H. unfold onInlineImgsClick.
  destruct (svgElement w) as [el|] eqn:Hel; [|now apply keeps_setStatus].
  revert w H Hel. intros w H _. revert w H.
  apply keeps_bind; [apply keeps_setStatus|intros _].
  apply keeps_tryCatch; [|intros e; apply keeps_setStatus].
  cbv zeta. intros w H. unfold bind at 1, liftOutcome.
  destruct (parseSVGText (serializeToString el)) as [doc|e] eqn:Hp; [|exact H].
  pose proof (parseSVGText_well_formed _ Hp) as Hwf.
  destruct (querySelectorAll (TypeSelector "image") doc) as [|img images];
    [now apply keeps_setStatus|].
  revert w H. apply keeps_bind; [intros w; now apply invariant_same_document|intros _].
  apply keeps_bind; [|intros _; apply keeps_setStatus].
  intros w _. apply renderSVGDocument_invariant, sanitizeSVGDocument_clean.
  now apply wellFormed_inlineImages.
Qed.

(** *** The handlers that load nothing *)

Lemma dispatch_same_document (ev : ZoomEvent) (w : World) :
  svgElement (dispatch ev w) = svgElement w /\ svgContainer (dispatch ev w) = svgContainer w.
Proof.
  destruct ev as [| |k|e|e|e|e|e]; cbn [dispatch]; try (split; reflexivity).
  - unfold onKeyDown. destruct (String.eqb k "+" || String.eqb k "=");
      destruct (String.eqb k "-"); split; reflexivity.
  - unfold onPointerMove. destruct (negb (map_has (pointerId e) (pointers w)));
      [split; reflexivity|].
    cbv zeta. cbn [pointers set_pointers].
    destruct (map snd (map_set (pointerId e) (mkPoint (clientX e) (clientY e)) (pointers w)))
      as [|p0 [|p1 [|p2 ps]]]; try (split; reflexivity).
    + unfold pan. destruct (negb (isPanning _)); split; reflexivity.
    + unfold pinch. cbn [_pinchStart set_pointers].
      destruct (_pinchStart w); split; reflexivity.
Qed.

Lemma handle_invariant (ev : PageEvent) (w : World) :
  pageInvariant w -> pageInvariant (handle ev w).
Proof.
  intros H. destruct ev as [[txt|]|file plain uri|clip|v|key|v| | | | | |ev]; cbn [handle].
  - now apply keeps_onFileText.
  - exact H.
  - now apply keeps_onDrop.
  - now apply keeps_onPasteClick.
  - revert H. now apply invariant_same_document.
  - destruct (String.eqb key "Enter"); [now apply keeps_onUrlInputEnter|exact H].
  - revert H. now apply invariant_same_document.
  - now apply keeps_onLoadSourceClick.
  - revert H. unfold onDownloadClick.
    destruct (svgElement w) eqn:E; apply invariant_same_document; cbn; now rewrite ?E.
  - split; [exact I|reflexivity].
  - now apply keeps_onInlineImgsClick.
  - revert H. unfold onFitViewClick, adjustFit.
    destruct (svgElement w) eqn:E; [|tauto].
    apply invariant_same_document; cbn; now rewrite ?E.
  - revert H. destruct (dispatch_same_document ev w) as [H1 H2].
    now apply invariant_same_document.
Qed.

(** Whatever the user does, in whatever order, the current document holds
    no script or foreignObject element and no attribute the sanitizer
    removes, and the container shows that document after the viewBox step
    and nothing else.  The parser is taken to build well-formed documents. *)
Theorem page_keeps_current_document_sanitized (evs : list PageEvent) :
  currentSanitized (handleAll evs initialWorld)
  /\ mountedCurrent (handleAll evs initialWorld).
Proof.
  unfold handleAll.
  assert (H : pageInvariant initialWorld) by (split; [exact I|reflexivity]).
  revert H. generalize initialWorld.
  induction evs as [|ev evs IH]; intros w H; simpl; [exact H|].
  apply IH. now apply handle_invariant.
Qed.

End PageFacts.

Lemma errorDocument_wellFormed : wellFormed Scenario.errorDocument.
Proof. well_formed. Qed.

Lemma scenario_parser_well_formed (txt : string) :
  wellFormed (@parseFromString Scenario.host txt).
Proof.
  change (wellFormed (Scenario.parseFromString txt)).
  unfold Scenario.parseFromString, Scenario.knownDocuments. cbn [find].
  destruct (Scenario.serializesTo txt Scenario.sizedDoc); [exact sizedDoc_wellFormed|].
  destruct (Scenario.serializesTo txt Scenario.unsafeDoc); [exact unsafeDoc_wellFormed|].
  destruct (Scenario.serializesTo txt Scenario.imagesDoc); [exact imagesDoc_wellFormed|].
  exact errorDocument_wellFormed.
Qed.

(** On the small host: the unsafe document comes in as a file, followed by
    a zoom, the inliner, a source text that does not parse, and a download. *)
Lemma page_keeps_current_document_sanitized_witness :
  let unsafeText := match documentElement Scenario.unsafeDoc with
                    | Some root => Scenario.serializeToString root
                    | None => EmptyString
                    end in
  let evs := [FileChange (Some unsafeText); ZoomControl ZoomInClick; InlineImgsClick;
              SourceAreaEdit "<svg"; LoadSourceClick; DownloadClick] in
  @currentSanitized Scenario.host (@handleAll Scenario.host evs initialWorld)
  /\ @mountedCurrent Scenario.host (@handleAll Scenario.host evs initialWorld).
Proof.
  exact (@page_keeps_current_document_sanitized Scenario.host scenario_parser_well_formed
           [FileChange (Some match documentElement Scenario.unsafeDoc with
                             | Some root => Scenario.serializeToString root
                             | None => EmptyString
                             end);
            ZoomControl ZoomInClick; InlineImgsClick; SourceAreaEdit "<svg"; LoadSourceClick;
            DownloadClick]).
Defined.

(** The run of the witness, step by step: the unsafe document is loaded
    without its script, handlers and javascript: link, and stays current
    after the source area failed to parse. *)
Example page_run_on_unsafeDoc :
  let unsafeText := match documentElement Scenario.unsafeDoc with
                    | Some root => Scenario.serializeToString root
                    | None => EmptyString
                    end in
  let w := @handleAll Scenario.host
             [FileChange (Some unsafeText); SourceAreaEdit "<svg"; LoadSourceClick] initialWorld in
  option_map (fun root => map (fun e => (localName e, map name (attrs e))) (elementsOf root))
             (svgElement w)
  = Some [("svg", ["width"]); ("rect", ["width"; "height"]); ("a", ["id"])]
  /\ statusText w = "状态:载入失败:解析失败:不是合法的 SVG".
Proof. vm_compute. split; reflexivity. Qed.
